(** * Frame-based metaphor retrieval: a shallow embedding of [frbasedretrieval.py]

    The script queries a SPARQL endpoint for metaphor-to-frame mappings,
    expands the typing of every frame it saw, and computes the overlap of
    frame-element and synset labels of each (source, target) pair.

    The remote endpoint, the clock and the file system are the only effects
    of the script.  They are kept in an explicit [World]; every function of
    the script becomes a state-passing computation that either returns a
    value or raises a Python exception. *)

From Stdlib Require Import ZArith List Ascii String Lia.
From Stdlib Require QArith.
From stdpp Require Import base option list gmap strings sorting.

Local Open Scope Z_scope.

(** ** Python strings

    A [str] is modelled by [string]; its characters stand for the code points
    below 256.  Comparison of strings is the lexicographic comparison of code
    points, which is [String.le] of stdpp ([String.leb] underneath). *)

Module Str.

(** [str.isspace] on one character: TAB..CR, FS..US, SPACE, NEL, NBSP. *)
Definition isspace (c : ascii) : bool :=
  let n := N_of_ascii c in
  ((9 <=? n) && (n <=? 13) || (28 <=? n) && (n <=? 32)
   || (n =? 133) || (n =? 160))%N.

Fixpoint lstrip (s : string) : string :=
  match s with
  | EmptyString => EmptyString
  | String c s' => if isspace c then lstrip s' else s
  end.

Fixpoint rstrip (s : string) : string :=
  match s with
  | EmptyString => EmptyString
  | String c s' =>
      match rstrip s' with
      | EmptyString => if isspace c then EmptyString else String c EmptyString
      | r => String c r
      end
  end.

(** [s.strip()] *)
Definition strip (s : string) : string := rstrip (lstrip s).

(** [sep.join(l)] *)
Definition join (sep : string) (l : list string) : string :=
  String.concat sep l.

(** [sorted(l)] on a list of strings. *)
Definition sorted (l : list string) : list string :=
  merge_sort String.le l.

(** The double quote, for the query texts that contain one. *)
Definition dq : string := String (ascii_of_nat 34) EmptyString.

(** [s.split("; ")]: the pieces between the non-overlapping occurrences of
    the two-character separator, found from the left.  [cur] holds the
    characters of the current piece, last one first. *)
Fixpoint split_go (cur : string) (s : string) : list string :=
  match s with
  | EmptyString => [String.rev cur]
  | String c s' =>
      match s' with
      | String d rest =>
          if (Ascii.eqb c ";" && Ascii.eqb d " ")%bool
          then String.rev cur :: split_go EmptyString rest
          else split_go (String c cur) s'
      | EmptyString => split_go (String c cur) s'
      end
  end.

Definition split (s : string) : list string := split_go EmptyString s.

(** Reading a semicolon-joined field back: the empty field is the empty
    list, every other field is split on the separator. *)
Definition split_field (s : string) : list string :=
  match s with
  | EmptyString => []
  | _ => split s
  end.

(** [has_sep s]: the separator ["; "] occurs in [s]. *)
Fixpoint has_sep (s : string) : bool :=
  match s with
  | EmptyString => false
  | String c s' =>
      match s' with
      | String d _ => (Ascii.eqb c ";" && Ascii.eqb d " ") || has_sep s'
      | EmptyString => false
      end
  end.

End Str.

(** ** Python sets of strings *)

Abbreviation pyset := (gset string).

(** ** Exceptions and results *)

Inductive Exn : Type :=
| EndpointError (detail : string)   (* whatever [sparql.query().convert()] raises *)
| KeyError (key : string)
| TypeError (detail : string)
| ValueError (detail : string).

Inductive Result (A : Type) : Type :=
| Ok (a : A)
| Raise (e : Exn).
Arguments Ok {A} a.
Arguments Raise {A} e.

(** ** SPARQL JSON results

    A binding maps a variable to a term, itself a dictionary with a
    ["value"] entry; a SELECT answers with a list of bindings, an ASK with a
    boolean. *)

Abbreviation Term := (gmap string string).
Abbreviation Binding := (gmap string Term).

Inductive Response : Type :=
| Select (bindings : list Binding)
| Ask (boolean : bool).

(** [b.get(var, {}).get("value")] *)
Definition value_of (b : Binding) (var : string) : option string :=
  default ∅ (b !! var) !! "value".

(** [b.get(var, {}).get("value", dflt)] *)
Definition value_or (b : Binding) (var : string) (dflt : string) : string :=
  default dflt (value_of b var).

(** ** The platform: endpoint and clock

    [send endpoint query] is one [sparql.query().convert()]: it answers or
    raises, and may change the state of the network.  Durations are kept
    abstract: [dur_scale d k] is the product [d * k] that the script hands to
    [time.sleep], which refuses the durations that [sleep_accepts] rejects
    (the negative ones). *)

Class Platform : Type := {
  Net : Type;
  send : string -> string -> Net -> (Exn + Response) * Net;
  Dur : Type;
  dur_scale : Dur -> Z -> Dur;
  sleep_accepts : Dur -> bool;
  default_sleep_sec : Dur            (* 0.8 *)
}.

(** ** Tables

    The rows of the three tables are dictionaries with fixed keys; each is
    a record here.  [Cell] is what a cell of a written table holds. *)

Inductive Cell : Type :=
| CNull
| CStr (s : string)
| CInt (n : Z).

Definition cell_of (o : option string) : Cell :=
  match o with Some s => CStr s | None => CNull end.

Class RowLike (R : Type) : Type := {
  keys : list string;
  cells : R -> list Cell
}.

Module MapRow.
Record t : Type := mk {
  metaphor : option string;
  source_frame : option string;
  target_frame : option string;
  source_role : option string;
  target_role : option string;
  entailment : option string;
  example : option string
}.

(** The column of a given name. *)
Definition get (name : string) : option (t -> option string) :=
  if decide (name = "metaphor") then Some metaphor
  else if decide (name = "source_frame") then Some source_frame
  else if decide (name = "target_frame") then Some target_frame
  else if decide (name = "source_role") then Some source_role
  else if decide (name = "target_role") then Some target_role
  else if decide (name = "entailment") then Some entailment
  else if decide (name = "example") then Some example
  else None.
End MapRow.

Module TypingInfo.
Record t : Type := mk {
  seed : string;
  candidates : list string;
  as_source : list string;
  as_target : list string
}.
End TypingInfo.

Module TypingRow.
Record t : Type := mk {
  seed_frame : string;
  equivalent_or_related_frames : string;
  as_source : string;
  as_target : string
}.
End TypingRow.

Module Overlap.
Record t : Type := mk {
  source_frame : string;
  target_frame : string;
  n_common_frame_elements : Z;
  n_common_synset_labels : Z;
  common_frame_elements : string;
  common_synset_labels : string
}.
End Overlap.

#[global] Instance MapRow_eq_dec : EqDecision MapRow.t.
Proof. solve_decision. Defined.
#[global] Instance TypingRow_eq_dec : EqDecision TypingRow.t.
Proof. solve_decision. Defined.
#[global] Instance Overlap_eq_dec : EqDecision Overlap.t.
Proof. solve_decision. Defined.

#[global] Instance MapRow_rowlike : RowLike MapRow.t := {|
  keys := ["metaphor"; "source_frame"; "target_frame"; "source_role";
           "target_role"; "entailment"; "example"];
  cells r := cell_of <$>
    [MapRow.metaphor r; MapRow.source_frame r; MapRow.target_frame r;
     MapRow.source_role r; MapRow.target_role r; MapRow.entailment r;
     MapRow.example r]
|}.

#[global] Instance TypingRow_rowlike : RowLike TypingRow.t := {|
  keys := ["seed_frame"; "equivalent_or_related_frames"; "as_source";
           "as_target"];
  cells r := CStr <$>
    [TypingRow.seed_frame r; TypingRow.equivalent_or_related_frames r;
     TypingRow.as_source r; TypingRow.as_target r]
|}.

#[global] Instance Overlap_rowlike : RowLike Overlap.t := {|
  keys := ["source_frame"; "target_frame"; "n_common_frame_elements";
           "n_common_synset_labels"; "common_frame_elements";
           "common_synset_labels"];
  cells r :=
    [CStr (Overlap.source_frame r); CStr (Overlap.target_frame r);
     CInt (Overlap.n_common_frame_elements r);
     CInt (Overlap.n_common_synset_labels r);
     CStr (Overlap.common_frame_elements r);
     CStr (Overlap.common_synset_labels r)]
|}.

(** A data frame: its column labels and its rows, in order. *)
Record DataFrame (R : Type) : Type := mkDataFrame {
  columns : list string;
  records : list R
}.
Arguments mkDataFrame {R} columns records.
Arguments columns {R} d.
Arguments records {R} d.

(** [pd.DataFrame(rows)] for a list of dictionaries that all have the keys
    of [R]: the columns are the keys met in the rows, so a frame built from
    no row has no column. *)
Definition data_frame {R} `{RowLike R} (rows : list R) : DataFrame R :=
  mkDataFrame (match rows with [] => [] | _ => keys end) rows.

(** Exact-row deduplication, keeping the first occurrence of every row. *)
Fixpoint dedup_go {R} `{EqDecision R} (seen : list R) (l : list R) : list R :=
  match l with
  | [] => []
  | r :: l' =>
      if decide (r ∈ seen) then dedup_go seen l'
      else r :: dedup_go (r :: seen) l'
  end.

(** [df.drop_duplicates()] *)
Definition drop_duplicates {R} `{EqDecision R} (df : DataFrame R) : DataFrame R :=
  mkDataFrame (columns df) (dedup_go [] (records df)).

(** What [to_csv(name, index=False)] leaves in a file: the header line and
    the lines of cells. *)
Record Csv : Type := mkCsv {
  header : list string;
  lines : list (list Cell)
}.

Definition csv_of {R} `{RowLike R} (df : DataFrame R) : Csv :=
  mkCsv (columns df) (cells <$> records df).

(** ** The script *)

Definition FRAMESTER_SPARQL : string := "https://etna.istc.cnr.it/framester2/sparql".

Definition SELECTED_METAPHORS : list string := [
  "https://w3id.org/framester/metanet/metaphors/GOVERNMENT_INSTITUTION_IS_A_BUILDING";
  "https://w3id.org/framester/metanet/metaphors/GOVERNMENT_IS_A_PERSON";
  "https://w3id.org/framester/metanet/metaphors/GOVERNMENT_IS_AN_ORGANISM";
  "https://w3id.org/framester/metanet/metaphors/GOVERNING_ACTION_IS_MOTION";
  "https://w3id.org/framester/metanet/metaphors/GOVERNMENT_INSTITUTION_IS_A_PHYSICAL_STRUCTURE";
  "https://w3id.org/framester/metanet/metaphors/CAUSED_CHANGE_OF_STATE_IS_CAUSED_CHANGE_OF_LOCATION";
  "https://w3id.org/framester/metanet/metaphors/ANALYZING_IS_DISSECTING";
  "https://w3id.org/framester/metanet/metaphors/MACHINES_ARE_PEOPLE";
  "https://w3id.org/framester/metanet/metaphors/CHANGE_IN_CONTROLLER_IS_TRANSFER_OF_POSSESSION";
  "https://w3id.org/framester/metanet/metaphors/DISEASE_TREATMENT_IS_WAR"
].

(** The query texts, with the IRI spliced in as the f-strings do. *)
Module Query.

Definition mappings (metaphor_iri : string) : string :=
"
    PREFIX metanet: <https://w3id.org/framester/metanet/schema/>
    PREFIX rdfs: <http://www.w3.org/2000/01/rdf-schema#>

    SELECT DISTINCT ?metaphor ?src ?tgt ?srcRole ?tgtRole ?ent ?ex
    WHERE {
      BIND(<" +:+ metaphor_iri +:+ "> AS ?metaphor)
      OPTIONAL { ?metaphor metanet:hasSourceFrame ?src. }
      OPTIONAL { ?metaphor metanet:hasTargetFrame ?tgt. }
      OPTIONAL { ?metaphor metanet:sourceRole ?srcRole. }
      OPTIONAL { ?metaphor metanet:targetRole ?tgtRole. }
      OPTIONAL { ?metaphor metanet:hasEntailmentDescription ?ent. }
      OPTIONAL { ?metaphor metanet:hasExample ?ex. }
    }
    ".

Definition candidates (frame_uri : string) : string :=
"
    PREFIX skos: <http://www.w3.org/2004/02/skos/core#>
    PREFIX schema: <http://schema.org/>
    PREFIX metanet: <https://w3id.org/framester/metanet/schema/>

    SELECT DISTINCT ?candidate ?typing
    WHERE {
      {
        BIND(<" +:+ frame_uri +:+ "> AS ?seed)
        VALUES ?p { skos:closeMatch schema:subsumedUnder }
        { ?seed ?p ?candidate. } UNION { ?candidate ?p ?seed. }
      }
      UNION
      {
        BIND(<" +:+ frame_uri +:+ "> AS ?candidate)
      }

      BIND(" +:+ Str.dq +:+ "none" +:+ Str.dq +:+ " AS ?typing)
      BIND(COALESCE(?candidate, <" +:+ frame_uri +:+ ">) AS ?cand)

      OPTIONAL {
        FILTER(BOUND(?cand))
        ?m metanet:hasSourceFrame ?cand.
        BIND(" +:+ Str.dq +:+ "source" +:+ Str.dq +:+ " AS ?typing)
      }
      OPTIONAL {
        FILTER(BOUND(?cand))
        ?m2 metanet:hasTargetFrame ?cand.
        BIND(" +:+ Str.dq +:+ "target" +:+ Str.dq +:+ " AS ?typing2)
      }
    }
    ".

Definition is_source (c : string) : string :=
"
        PREFIX metanet: <https://w3id.org/framester/metanet/schema/>
        ASK { { ?m metanet:hasSourceFrame <" +:+ c +:+ "> } UNION { <" +:+ c +:+ "> metanet:hasSourceFrame ?x } }
        ".

Definition is_target (c : string) : string :=
"
        PREFIX metanet: <https://w3id.org/framester/metanet/schema/>
        ASK { { ?m metanet:hasTargetFrame <" +:+ c +:+ "> } UNION { <" +:+ c +:+ "> metanet:hasTargetFrame ?x } }
        ".

Definition labels (frame_uri : string) : string :=
"
    PREFIX rdfs: <http://www.w3.org/2000/01/rdf-schema#>
    PREFIX skos: <http://www.w3.org/2004/02/skos/core#>
    PREFIX schema: <http://schema.org/>
    PREFIX metanet: <https://w3id.org/framester/metanet/schema/>
    PREFIX framenet: <https://w3id.org/framester/framenet/schema/>
    PREFIX wn: <https://w3id.org/framester/wn/wn30/schema/>

    SELECT DISTINCT ?feLabel ?synLabel
    WHERE {
      BIND(<" +:+ frame_uri +:+ "> AS ?f)

      # Frame elements through common patterns
      OPTIONAL {
        ?f ?feRel ?fe .
        VALUES ?feRel {
          framenet:fe framenet:frameElement
          schema:hasPart
          metanet:sourceRole metanet:targetRole
        }
        OPTIONAL { ?fe rdfs:label ?feLabel. }
        OPTIONAL { ?fe skos:prefLabel ?feLabel. }
      }

      # Synset labels linked from frame or its lexical units
      OPTIONAL {
        { ?f skos:closeMatch ?syn. } UNION { ?f schema:sameAs ?syn. } UNION { ?f framenet:lu ?lu. ?lu skos:closeMatch ?syn. }
        FILTER(CONTAINS(STR(?syn), " +:+ Str.dq +:+ "wn" +:+ Str.dq +:+ "))
        OPTIONAL { ?syn rdfs:label ?synLabel. }
        OPTIONAL { ?syn skos:prefLabel ?synLabel. }
      }
    }
    ".

End Query.

(** [data["results"]["bindings"]] and [data["boolean"]] on what
    [run_sparql] returned. *)
Definition bindings_of (data : option Response) : Result (list Binding) :=
  match data with
  | Some (Select bs) => Ok bs
  | Some (Ask _) => Raise (KeyError "results")
  | None => Raise (TypeError "'NoneType' object is not subscriptable")
  end.

Definition boolean_of (data : option Response) : Result bool :=
  match data with
  | Some (Ask b) => Ok b
  | Some (Select _) => Raise (KeyError "boolean")
  | None => Raise (TypeError "'NoneType' object is not subscriptable")
  end.

(** One row of the mapping table from one binding. *)
Definition row_of_binding (b : Binding) : MapRow.t :=
  MapRow.mk (value_of b "metaphor") (value_of b "src") (value_of b "tgt")
            (value_of b "srcRole") (value_of b "tgtRole")
            (value_of b "ent") (value_of b "ex").

(** The row [main] adds for a metaphor without any row. *)
Definition placeholder (m : string) : MapRow.t :=
  MapRow.mk (Some m) None None None None None None.

(** [if lab: acc.add(lab.strip())] *)
Definition add_label (lab : option string) (acc : pyset) : pyset :=
  match lab with
  | Some (String c s) => {[ Str.strip (String c s) ]} ∪ acc
  | _ => acc
  end.

(** The loop of [get_frame_elements_and_synsets] over the bindings. *)
Definition collect_labels (bs : list Binding) : pyset * pyset :=
  fold_left (fun '(fe, syn) b =>
               (add_label (value_of b "feLabel") fe,
                add_label (value_of b "synLabel") syn))
            bs (∅, ∅).

(** The first loop of [expand_equivalents_and_typing]. *)
Definition collect_candidates (frame_uri : string) (bs : list Binding) : pyset :=
  fold_left (fun cand_all b => {[ value_or b "candidate" frame_uri ]} ∪ cand_all)
            bs ∅.

(** [sorted(set(l1) & set(l2))] *)
Definition common (l1 l2 : list string) : list string :=
  Str.sorted (elements ((list_to_set l1 : pyset) ∩ list_to_set l2)).

(** The record that [compute_overlap] builds from the labels of the two
    frames. *)
Definition overlap_record (source_frame target_frame : string)
    (src tgt : list string * list string) : Overlap.t :=
  let common_fe := common (fst src) (fst tgt) in
  let common_syn := common (snd src) (snd tgt) in
  Overlap.mk source_frame target_frame
             (Z.of_nat (length common_fe)) (Z.of_nat (length common_syn))
             (Str.join "; " common_fe) (Str.join "; " common_syn).

(** [df_map[name]]: the column, or [KeyError] when the frame has no such
    column. *)
Definition getitem (df : DataFrame MapRow.t) (name : string)
  : Result (list (option string)) :=
  if decide (name ∈ columns df) then
    match MapRow.get name with
    | Some field => Ok (field <$> records df)
    | None => Raise (KeyError name)
    end
  else Raise (KeyError name).

(** [s.dropna().tolist()] *)
Definition dropna (col : list (option string)) : list string := omap id col.

(** The (source, target) pairs of the rows of
    [df_map.dropna(subset=["source_frame", "target_frame"])]. *)
Definition frame_pair (r : MapRow.t) : option (string * string) :=
  match MapRow.source_frame r, MapRow.target_frame r with
  | Some s, Some t => Some (s, t)
  | _, _ => None
  end.

Definition dropna_pairs (df : DataFrame MapRow.t) : Result (list (string * string)) :=
  if decide ("source_frame" ∈ columns df) then
    if decide ("target_frame" ∈ columns df) then Ok (omap frame_pair (records df))
    else Raise (KeyError "target_frame")
  else Raise (KeyError "source_frame").

Definition typing_row (info : TypingInfo.t) : TypingRow.t :=
  TypingRow.mk (TypingInfo.seed info)
    (Str.join "; " (Str.sorted (TypingInfo.candidates info)))
    (Str.join "; " (Str.sorted (TypingInfo.as_source info)))
    (Str.join "; " (Str.sorted (TypingInfo.as_target info))).

(** ** The world and the computations on it *)

Section Script.
Context `{Platform}.

(** The state of the network, the durations slept so far (oldest first)
    and the files written so far. *)
Record World : Type := mkWorld {
  net : Net;
  slept : list Dur;
  files : gmap string Csv
}.

Definition M (A : Type) : Type := World -> Result A * World.

Definition ret {A} (a : A) : M A := fun w => (Ok a, w).

Definition bind {A B} (c : M A) (k : A -> M B) : M B :=
  fun w =>
    match c w with
    | (Ok a, w') => k a w'
    | (Raise e, w') => (Raise e, w')
    end.

(** A pure step that may raise. *)
Definition lift {A} (r : Result A) : M A := fun w => (r, w).

Notation "'do' x <- c ;; k" := (bind c (fun x => k))
  (at level 10, x name, c at level 99, k at level 200).
Notation "'do' ' p <- c ;; k" := (bind c (fun x => let 'p := x in k))
  (at level 10, p pattern, c at level 99, k at level 200).
Notation "'exec' c ;; k" := (bind c (fun _ => k))
  (at level 10, c at level 99, k at level 200).

(** [time.sleep(d)] *)
Definition time_sleep (d : Dur) : M unit :=
  fun w =>
    if sleep_accepts d
    then (Ok tt, mkWorld (net w) (slept w ++ [d]) (files w))
    else (Raise (ValueError "sleep length must be non-negative"), w).

(** One [sparql.query().convert()]. *)
Definition query_convert (endpoint query : string) : M Response :=
  fun w =>
    match send endpoint query (net w) with
    | (inr res, n) => (Ok res, mkWorld n (slept w) (files w))
    | (inl e, n) => (Raise e, mkWorld n (slept w) (files w))
    end.

(** [df.to_csv(name, index=False)]; a write that fails (disk, permissions)
    is not modelled. *)
Definition to_csv {R} `{RowLike R} (name : string) (df : DataFrame R) : M unit :=
  fun w => (Ok tt, mkWorld (net w) (slept w) (<[name := csv_of df]> (files w))).

(** The loop of [run_sparql]: [todo] iterations are left of
    [range(retries)], the next one is number [attempt].  Falling off the
    loop returns [None]. *)
Fixpoint run_sparql_loop (todo : nat) (attempt : Z)
    (query endpoint : string) (retries : Z) (sleep_sec : Dur)
  : M (option Response) :=
  match todo with
  | O => ret None
  | S todo' =>
      fun w =>
        match query_convert endpoint query w with
        | (Ok res, w') => (Ok (Some res), w')
        | (Raise e, w') =>
            if attempt =? retries - 1 then (Raise e, w')
            else
              (exec time_sleep (dur_scale sleep_sec (attempt + 1)) ;;
               run_sparql_loop todo' (attempt + 1) query endpoint retries sleep_sec) w'
        end
  end.

Definition run_sparql (query endpoint : string) (retries : Z) (sleep_sec : Dur)
  : M (option Response) :=
  run_sparql_loop (Z.to_nat retries) 0 query endpoint retries sleep_sec.

(** The arguments of the [time.sleep] calls that follow the failures of
    attempts [attempt], ..., [attempt + j - 1]:
    [sleep_sec * (attempt + 1)], ..., [sleep_sec * (attempt + j)]. *)
Definition backoff_delays (sleep_sec : Dur) (attempt : Z) (j : nat) : list Dur :=
  map (fun k => dur_scale sleep_sec (attempt + Z.of_nat k + 1)) (seq 0 j).

(** [run_sparql(q)], with the default endpoint, retries and delay. *)
Definition run_sparql_default (query : string) : M (option Response) :=
  run_sparql query FRAMESTER_SPARQL 3 default_sleep_sec.

Definition get_mappings_roles_entailments (metaphor_iri : string)
  : M (list MapRow.t) :=
  do data <- run_sparql_default (Query.mappings metaphor_iri) ;;
  do bs <- lift (bindings_of data) ;;
  ret (row_of_binding <$> bs).

(** The second loop of [expand_equivalents_and_typing], over
    [list(cand_all)]. *)
Fixpoint type_candidates (cs : list string) (src tgt : pyset)
  : M (pyset * pyset) :=
  match cs with
  | [] => ret (src, tgt)
  | c :: cs' =>
      do d2 <- run_sparql_default (Query.is_source c) ;;
      do is_src <- lift (boolean_of d2) ;;
      do d3 <- run_sparql_default (Query.is_target c) ;;
      do is_tgt <- lift (boolean_of d3) ;;
      type_candidates cs'
        (if is_src : bool then {[ c ]} ∪ src else src)
        (if is_tgt : bool then {[ c ]} ∪ tgt else tgt)
  end.

(** The first loop also reads [b.get("typing", {}).get("value")] into a
    variable that is never used; that read cannot raise and is left out. *)
Definition expand_equivalents_and_typing (frame_uri : string)
  : M TypingInfo.t :=
  do data <- run_sparql_default (Query.candidates frame_uri) ;;
  do bs <- lift (bindings_of data) ;;
  let cand_all := collect_candidates frame_uri bs in
  do '(src, tgt) <- type_candidates (elements cand_all) ∅ ∅ ;;
  ret (TypingInfo.mk frame_uri (elements cand_all) (elements src) (elements tgt)).

Definition get_frame_elements_and_synsets (frame_uri : string)
  : M (list string * list string) :=
  do data <- run_sparql_default (Query.labels frame_uri) ;;
  do bs <- lift (bindings_of data) ;;
  let '(fe, syn) := collect_labels bs in
  ret (Str.sorted (elements fe), Str.sorted (elements syn)).

Definition compute_overlap (source_frame target_frame : string) : M Overlap.t :=
  do src <- get_frame_elements_and_synsets source_frame ;;
  do tgt <- get_frame_elements_and_synsets target_frame ;;
  ret (overlap_record source_frame target_frame src tgt).

(** The three loops of [main]. *)
Fixpoint fetch_mappings (ms : list string) (all_map_rows : list MapRow.t)
  : M (list MapRow.t) :=
  match ms with
  | [] => ret all_map_rows
  | m :: ms' =>
      do rows <- get_mappings_roles_entailments m ;;
      match rows with
      | [] => fetch_mappings ms' (all_map_rows ++ [placeholder m])
      | _ => fetch_mappings ms' (all_map_rows ++ rows)
      end
  end.

Fixpoint expand_frames (fs : list string) (typing_rows : list TypingRow.t)
  : M (list TypingRow.t) :=
  match fs with
  | [] => ret typing_rows
  | f :: fs' =>
      do info <- expand_equivalents_and_typing f ;;
      expand_frames fs' (typing_rows ++ [typing_row info])
  end.

Fixpoint overlap_pairs (ps : list (string * string)) (overlap_rows : list Overlap.t)
  : M (list Overlap.t) :=
  match ps with
  | [] => ret overlap_rows
  | (s, t) :: ps' =>
      do r <- compute_overlap s t ;;
      overlap_pairs ps' (overlap_rows ++ [r])
  end.

(** The mapping stage of [main]: fetch, deduplicate, write. *)
Definition mapping_stage (selected : list string) : M (DataFrame MapRow.t) :=
  do all_map_rows <- fetch_mappings selected [] ;;
  let df_map := drop_duplicates (data_frame all_map_rows) in
  exec to_csv "metaphor_mappings_roles_entailments.csv" df_map ;;
  ret df_map.

(** [main], on the list of metaphors it is configured with (the script
    reads the global [SELECTED_METAPHORS]).  The [tqdm] progress bars and
    the summary printed at the end, which only read the tables, are left
    out. *)
Definition main (selected : list string) : M unit :=
  do df_map <- mapping_stage selected ;;
  do srcs <- lift (getitem df_map "source_frame") ;;
  do tgts <- lift (getitem df_map "target_frame") ;;
  let unique_frames :=
    Str.sorted (elements (list_to_set (dropna srcs ++ dropna tgts) : pyset)) in
  do typing_rows <- expand_frames unique_frames [] ;;
  let df_type := data_frame typing_rows in
  exec to_csv "frame_typing_expanded.csv" df_type ;;
  do pairs <- lift (dropna_pairs df_map) ;;
  do overlap_rows <- overlap_pairs pairs [] ;;
  let df_overlap := drop_duplicates (data_frame overlap_rows) in
  exec to_csv "similarity_overlap.csv" df_overlap ;;
  ret tt.

End Script.

Arguments World {_}.
Arguments M {_} A.

(** ** Two concrete platforms

    Both measure durations in rationals, [0.8] being [8/10]. *)

(** A stateless endpoint: the answer is a fixed function of the query. *)
Definition oracle_platform (answer : string -> Exn + Response) : Platform := {|
  Net := unit;
  send _ query n := (answer query, n);
  Dur := QArith_base.Q;
  dur_scale d k := QArith_base.Qmult d (QArith_base.inject_Z k);
  sleep_accepts d := QArith_base.Qle_bool (QArith_base.inject_Z 0) d;
  default_sleep_sec := QArith_base.Qmake 8 10
|}.

(** An endpoint that plays back a list of outcomes, one per request, and
    answers with an empty SELECT once the list is used up. *)
Definition replay_platform : Platform := {|
  Net := list (Exn + Response);
  send _ _ n := match n with
                | [] => (inr (Select []), [])
                | o :: n' => (o, n')
                end;
  Dur := QArith_base.Q;
  dur_scale d k := QArith_base.Qmult d (QArith_base.inject_Z k);
  sleep_accepts d := QArith_base.Qle_bool (QArith_base.inject_Z 0) d;
  default_sleep_sec := QArith_base.Qmake 8 10
|}.

(** A binding that gives [var] the value [v]. *)
Definition bound (var v : string) : Binding := {[ var := {[ "value" := v ]} ]}.

(** Labels of two frames, for the stateless endpoint. *)
Definition demo_answer (query : string) : Exn + Response :=
  if decide (query = Query.labels "urn:src") then
    inr (Select [bound "feLabel" "Goal"; bound "feLabel" " Agent ";
                 bound "synLabel" "path"])
  else if decide (query = Query.labels "urn:tgt") then
    inr (Select [bound "feLabel" "Theme"; bound "feLabel" "Agent";
                 bound "synLabel" "path"])
  else if decide (query = Query.mappings "urn:m1") then
    inr (Select [<["src" := {[ "value" := "urn:src" ]}]>
                   (<["tgt" := {[ "value" := "urn:tgt" ]}]>
                      (bound "metaphor" "urn:m1"))])
  else if decide (query = Query.candidates "urn:src") then
    inr (Select [bound "candidate" "urn:src"; bound "candidate" "urn:tgt"])
  else if decide (query = Query.is_source "urn:src") then inr (Ask true)
  else if decide (query = Query.is_target "urn:tgt") then inr (Ask true)
  else if decide (query = Query.is_source "urn:tgt") then inr (Ask false)
  else if decide (query = Query.is_target "urn:src") then inr (Ask false)
  else inr (Select []).

Definition demo_platform : Platform := oracle_platform demo_answer.

(** An endpoint whose every answer is one binding with nothing bound. *)
Definition unbound_platform : Platform :=
  oracle_platform (fun _ => inr (Select [∅])).

(** An endpoint whose every answer is the empty SELECT. *)
Definition silent_platform : Platform :=
  oracle_platform (fun _ => inr (Select [])).

(** An endpoint that gives every frame the one label ["a; b"]. *)
Definition semicolon_platform : Platform :=
  oracle_platform (fun _ => inr (Select [bound "feLabel" "a; b"])).

Definition world0 {P : Platform} (n : @Net P) : @World P := mkWorld n [] ∅.

(** * Properties *)

(** ** Strings *)

Section StringFacts.

Lemma rstrip_cons_nonspace c s :
  Str.isspace c = false -> Str.rstrip (String c s) = String c (Str.rstrip s).
Proof.
  intros Hc. simpl. rewrite Hc. now destruct (Str.rstrip s).
Qed.

Lemma rstrip_idem s : Str.rstrip (Str.rstrip s) = Str.rstrip s.
Proof.
  induction s as [|c s IH]; [reflexivity|].
  simpl. destruct (Str.rstrip s) as [|a r] eqn:E.
  - destruct (Str.isspace c) eqn:Hc; [reflexivity|].
    simpl. now rewrite Hc.
  - change (Str.rstrip (String c (String a r)))
      with (match Str.rstrip (String a r) with
            | EmptyString => if Str.isspace c then EmptyString else String c EmptyString
            | r0 => String c r0
            end).
    now rewrite IH.
Qed.

Lemma lstrip_head s :
  match Str.lstrip s with
  | EmptyString => True
  | String c _ => Str.isspace c = false
  end.
Proof.
  induction s as [|c s IH]; simpl; [exact I|].
  destruct (Str.isspace c) eqn:Hc; [exact IH | exact Hc].
Qed.

Lemma strip_idem s : Str.strip (Str.strip s) = Str.strip s.
Proof.
  unfold Str.strip. pose proof (lstrip_head s) as Hh.
  destruct (Str.lstrip s) as [|c t]; [reflexivity|].
  rewrite (rstrip_cons_nonspace c t Hh).
  simpl Str.lstrip. rewrite Hh.
  rewrite (rstrip_cons_nonspace c _ Hh). now rewrite rstrip_idem.
Qed.

Lemma split_go_step c d rest cur :
  Str.split_go cur (String c (String d rest))
  = if (Ascii.eqb c ";" && Ascii.eqb d " ")%bool
    then String.rev cur :: Str.split_go EmptyString rest
    else Str.split_go (String c cur) (String d rest).
Proof. reflexivity. Qed.

Lemma split_go_last s : forall cur,
  Str.has_sep s = false -> Str.split_go cur s = [String.rev_app cur s].
Proof.
  induction s as [|c s IH]; intros cur Hs; [reflexivity|].
  destruct s as [|d s'].
  - reflexivity.
  - cbn [Str.has_sep] in Hs. apply orb_false_iff in Hs as [Hcd Hs].
    rewrite split_go_step, Hcd. now rewrite IH.
Qed.

Lemma split_go_piece s t : forall cur,
  Str.has_sep s = false ->
  Str.split_go cur (s +:+ String ";" (String " " t))
  = String.rev_app cur s :: Str.split_go EmptyString t.
Proof.
  induction s as [|c s IH]; intros cur Hs.
  - reflexivity.
  - destruct s as [|d s'].
    + change (Str.split_go cur (String c (String ";" (String " " t)))
              = String.rev_app cur (String c EmptyString)
                  :: Str.split_go EmptyString t).
      rewrite split_go_step.
      replace (Ascii.eqb c ";" && Ascii.eqb ";" " ")%bool with false
        by (now rewrite andb_false_r).
      reflexivity.
    + cbn [Str.has_sep] in Hs. apply orb_false_iff in Hs as [Hcd Hs].
      change (String c (String d s') +:+ String ";" (String " " t))
        with (String c (String d (s' +:+ String ";" (String " " t)))).
      rewrite split_go_step, Hcd.
      change (String d (s' +:+ String ";" (String " " t)))
        with (String d s' +:+ String ";" (String " " t)).
      now rewrite IH.
Qed.

Lemma split_join l :
  l <> [] -> Forall (fun s => Str.has_sep s = false) l ->
  Str.split (Str.join "; " l) = l.
Proof.
  unfold Str.split, Str.join.
  induction l as [|x l IH]; intros Hne Hl; [congruence|].
  apply Forall_cons in Hl as [Hx Hl].
  destruct l as [|y l'].
  - simpl. now rewrite split_go_last.
  - change (String.concat "; " (x :: y :: l'))
      with (x +:+ String ";" (String " " (String.concat "; " (y :: l')))).
    rewrite split_go_piece by assumption.
    rewrite IH by (assumption || congruence). reflexivity.
Qed.

Lemma join_empty l : Str.join "; " l = EmptyString -> l = [] \/ l = [EmptyString].
Proof.
  destruct l as [|x [|y l']]; [now left| |].
  - simpl. intros ->. now right.
  - unfold Str.join.
    change (String.concat "; " (x :: y :: l'))
      with (x +:+ String ";" (String " " (String.concat "; " (y :: l')))).
    destruct x; discriminate.
Qed.

Lemma split_field_join l :
  l <> [EmptyString] -> Forall (fun s => Str.has_sep s = false) l ->
  Str.split_field (Str.join "; " l) = l.
Proof.
  intros Hne Hl. destruct l as [|x l']; [reflexivity|].
  unfold Str.split_field.
  destruct (Str.join "; " (x :: l')) eqn:E.
  - apply join_empty in E as [E|E]; congruence.
  - rewrite <- E. apply split_join; [congruence | assumption].
Qed.

End StringFacts.

(** ** Deduplication *)

Section Dedup.
Context {R : Type} `{EqDecision R}.

Lemma elem_of_dedup_go (l : list R) : forall seen r,
  r ∈ dedup_go seen l <-> r ∈ l /\ r ∉ seen.
Proof.
  induction l as [|x l IH]; intros seen r; simpl.
  - rewrite elem_of_nil. tauto.
  - destruct (decide (x ∈ seen)) as [Hin|Hnin].
    + rewrite IH, elem_of_cons. split.
      * intros [? ?]; auto.
      * intros [[->|?] ?]; [contradiction | auto].
    + rewrite !elem_of_cons, IH, elem_of_cons. split.
      * intros [->|[? Hn]]; [auto|]. split; [auto|]. intros ?. apply Hn. auto.
      * intros [[->|?] Hn]; [auto|].
        destruct (decide (r = x)) as [->|Hne]; [auto|].
        right. split; [assumption|]. intros [?|?]; contradiction.
Qed.

Lemma NoDup_dedup_go (l : list R) : forall seen, NoDup (dedup_go seen l).
Proof.
  induction l as [|x l IH]; intros seen; simpl; [constructor|].
  destruct (decide (x ∈ seen)); [apply IH|].
  constructor; [|apply IH].
  rewrite elem_of_dedup_go, elem_of_cons. intros [_ Hn]. apply Hn. now left.
Qed.

Lemma dedup_go_fixed (l : list R) : forall seen,
  NoDup l -> (forall x, x ∈ l -> x ∉ seen) -> dedup_go seen l = l.
Proof.
  induction l as [|x l IH]; intros seen Hnd Hseen; [reflexivity|].
  simpl. apply NoDup_cons in Hnd as [Hx Hnd].
  destruct (decide (x ∈ seen)) as [Hin|_].
  - exfalso. apply (Hseen x); [left|assumption].
  - f_equal. apply IH; [assumption|].
    intros y Hy. rewrite elem_of_cons. intros [->|Hin]; [contradiction|].
    apply (Hseen y); [now right | assumption].
Qed.

Lemma dedup_go_idem (l : list R) :
  dedup_go [] (dedup_go [] l) = dedup_go [] l.
Proof.
  apply dedup_go_fixed; [apply NoDup_dedup_go|].
  intros x _. apply not_elem_of_nil.
Qed.

Lemma drop_duplicates_idem (df : DataFrame R) :
  drop_duplicates (drop_duplicates df) = drop_duplicates df.
Proof. unfold drop_duplicates. simpl. now rewrite dedup_go_idem. Qed.

Lemma drop_duplicates_fixed (df : DataFrame R) :
  NoDup (records df) -> drop_duplicates df = df.
Proof.
  intros Hnd. destruct df as [cols rows]. unfold drop_duplicates. cbn in *.
  f_equal. apply dedup_go_fixed; [exact Hnd|].
  intros x _. apply not_elem_of_nil.
Qed.

End Dedup.

(** ** Computations *)

Section MonadFacts.
Context `{Platform}.

Lemma bind_Ok {A B} (c : M A) (k : A -> M B) w b w' :
  bind c k w = (Ok b, w') <->
  exists a w1, c w = (Ok a, w1) /\ k a w1 = (Ok b, w').
Proof.
  unfold bind. split.
  - destruct (c w) as [[a|e] w1]; [eauto | discriminate].
  - intros (a & w1 & -> & Hk). exact Hk.
Qed.

Lemma bind_run {A B} (c : M A) (k : A -> M B) w a w1 :
  c w = (Ok a, w1) -> bind c k w = k a w1.
Proof. unfold bind. now intros ->. Qed.

Lemma lift_Ok {A} (r : Result A) w a w' :
  lift r w = (Ok a, w') <-> r = Ok a /\ w' = w.
Proof. unfold lift. split; [intros [= -> ->] | intros [-> ->]]; auto. Qed.

Lemma ret_Ok {A} (x a : A) w w' :
  ret x w = (Ok a, w') <-> a = x /\ w' = w.
Proof. unfold ret. split; [intros [= -> ->] | intros [-> ->]]; auto. Qed.

End MonadFacts.

(** ** The retry loop *)

Section Retry.
Context `{Platform}.
Variables (query endpoint : string) (retries : Z) (sleep_sec : Dur).

Abbreviation delays := (backoff_delays sleep_sec).

Lemma delays_S attempt j :
  delays attempt (S j)
  = dur_scale sleep_sec (attempt + 1) :: delays (attempt + 1) j.
Proof.
  unfold backoff_delays. cbn [seq map]. f_equal.
  - f_equal. lia.
  - rewrite <- seq_shift, map_map. apply map_ext.
    intros k. f_equal. lia.
Qed.

Lemma loop_step_fail todo attempt n sl fl e n1 :
  send endpoint query n = (inl e, n1) ->
  (attempt =? retries - 1) = false ->
  sleep_accepts (dur_scale sleep_sec (attempt + 1)) = true ->
  run_sparql_loop (S todo) attempt query endpoint retries sleep_sec
    (mkWorld n sl fl)
  = run_sparql_loop todo (attempt + 1) query endpoint retries sleep_sec
      (mkWorld n1 (sl ++ [dur_scale sleep_sec (attempt + 1)]) fl).
Proof.
  intros Hs Hlast Hok. cbn [run_sparql_loop].
  unfold query_convert. cbn [net slept files]. rewrite Hs, Hlast.
  unfold bind, time_sleep. cbn [net slept files]. now rewrite Hok.
Qed.

Lemma loop_success j : forall todo attempt sl fl nets errs res n',
  (j < todo)%nat -> attempt + Z.of_nat todo = retries ->
  (forall k, (k < j)%nat ->
     send endpoint query (nets k) = (inl (errs k), nets (S k))) ->
  send endpoint query (nets j) = (inr res, n') ->
  (forall k, (k < j)%nat ->
     sleep_accepts (dur_scale sleep_sec (attempt + Z.of_nat k + 1)) = true) ->
  run_sparql_loop todo attempt query endpoint retries sleep_sec
    (mkWorld (nets 0%nat) sl fl)
  = (Ok (Some res), mkWorld n' (sl ++ delays attempt j) fl).
Proof.
  induction j as [|j IH]; intros todo attempt sl fl nets errs res n' Hj Hr Hfail Hres Hsl.
  - destruct todo as [|todo]; [lia|].
    cbn [run_sparql_loop]. unfold query_convert. cbn [net slept files].
    rewrite Hres. unfold backoff_delays. cbn [seq map]. now rewrite app_nil_r.
  - destruct todo as [|todo]; [lia|].
    rewrite (loop_step_fail todo attempt _ sl fl (errs 0%nat) (nets 1%nat)).
    + rewrite (IH todo (attempt + 1) _ fl (fun k => nets (S k))
                 (fun k => errs (S k)) res n').
      * rewrite delays_S, <- app_assoc. reflexivity.
      * lia.
      * lia.
      * intros k Hk. apply Hfail. lia.
      * exact Hres.
      * intros k Hk. specialize (Hsl (S k) ltac:(lia)).
        replace (attempt + 1 + Z.of_nat k + 1)
          with (attempt + Z.of_nat (S k) + 1) by lia. exact Hsl.
    + apply Hfail. lia.
    + apply Z.eqb_neq. lia.
    + specialize (Hsl 0%nat ltac:(lia)).
      replace (attempt + 1) with (attempt + Z.of_nat 0 + 1) by lia. exact Hsl.
Qed.

Lemma loop_exhausted todo : forall attempt sl fl nets errs,
  attempt + Z.of_nat (S todo) = retries ->
  (forall k, (k < S todo)%nat ->
     send endpoint query (nets k) = (inl (errs k), nets (S k))) ->
  (forall k, (k < todo)%nat ->
     sleep_accepts (dur_scale sleep_sec (attempt + Z.of_nat k + 1)) = true) ->
  run_sparql_loop (S todo) attempt query endpoint retries sleep_sec
    (mkWorld (nets 0%nat) sl fl)
  = (Raise (errs todo), mkWorld (nets (S todo)) (sl ++ delays attempt todo) fl).
Proof.
  induction todo as [|todo IH]; intros attempt sl fl nets errs Hr Hfail Hsl.
  - cbn [run_sparql_loop]. unfold query_convert. cbn [net slept files].
    rewrite (Hfail 0%nat) by lia.
    replace (attempt =? retries - 1) with true by (symmetry; apply Z.eqb_eq; lia).
    unfold backoff_delays. cbn [seq map]. now rewrite app_nil_r.
  - rewrite (loop_step_fail (S todo) attempt _ sl fl (errs 0%nat) (nets 1%nat)).
    + rewrite (IH (attempt + 1) _ fl (fun k => nets (S k)) (fun k => errs (S k))).
      * rewrite delays_S, <- app_assoc. reflexivity.
      * lia.
      * intros k Hk. apply Hfail. lia.
      * intros k Hk. specialize (Hsl (S k) ltac:(lia)).
        replace (attempt + 1 + Z.of_nat k + 1)
          with (attempt + Z.of_nat (S k) + 1) by lia. exact Hsl.
    + apply Hfail. lia.
    + apply Z.eqb_neq. lia.
    + specialize (Hsl 0%nat ltac:(lia)).
      replace (attempt + 1) with (attempt + Z.of_nat 0 + 1) by lia. exact Hsl.
Qed.

End Retry.

(** C1.  The retry policy of [run_sparql].  Let the first [j] attempts on a
    query fail, attempt [k] with error [errs k], and let the sleeps that
    follow them be accepted by the clock.  If attempt [j] is within
    [retries] and succeeds, [run_sparql] returns its result after sleeping
    [backoff * 1], ..., [backoff * j], one sleep after each failure; with
    [retries = 3] and two failures these are exactly the two sleeps
    [backoff * 1] and [backoff * 2].  If all [retries] attempts fail, the
    error of the last attempt is raised, after [retries - 1] sleeps. *)
Theorem run_sparql_retry `{Platform} (query endpoint : string) (retries : Z)
    (sleep_sec : Dur) (w : World) (nets : nat -> Net) (errs : nat -> Exn)
    (j : nat) :
  nets 0%nat = net w ->
  Z.of_nat j <= retries ->
  (forall k, (k < j)%nat ->
     send endpoint query (nets k) = (inl (errs k), nets (S k))) ->
  (forall k, (k < j)%nat -> Z.of_nat k + 1 < retries ->
     sleep_accepts (dur_scale sleep_sec (Z.of_nat k + 1)) = true) ->
  (forall res n',
     Z.of_nat j < retries ->
     send endpoint query (nets j) = (inr res, n') ->
     run_sparql query endpoint retries sleep_sec w
     = (Ok (Some res),
        mkWorld n' (slept w ++ backoff_delays sleep_sec 0 j) (files w)))
  /\ (forall res n',
       retries = 3 -> j = 2%nat ->
       send endpoint query (nets j) = (inr res, n') ->
       run_sparql query endpoint retries sleep_sec w
       = (Ok (Some res),
          mkWorld n' (slept w ++ [dur_scale sleep_sec 1; dur_scale sleep_sec 2])
                  (files w)))
  /\ (0 < retries -> Z.of_nat j = retries ->
      run_sparql query endpoint retries sleep_sec w
      = (Raise (errs (j - 1)%nat),
         mkWorld (nets j) (slept w ++ backoff_delays sleep_sec 0 (j - 1)%nat)
                 (files w))).
Proof.
  intros H0 Hj Hfail Hsl.
  assert (Hsucc : forall res n',
     Z.of_nat j < retries ->
     send endpoint query (nets j) = (inr res, n') ->
     run_sparql query endpoint retries sleep_sec w
     = (Ok (Some res),
        mkWorld n' (slept w ++ backoff_delays sleep_sec 0 j) (files w))).
  { intros res n' Hlt Hres. unfold run_sparql.
    destruct w as [n sl fl]. cbn [net slept files] in *. subst n.
    apply (loop_success query endpoint retries sleep_sec j _ 0 sl fl nets errs);
      try assumption; try lia.
    intros k Hk. apply Hsl; lia. }
  split; [exact Hsucc|]. split.
  - intros res n' -> -> Hres.
    rewrite (Hsucc res n') by (assumption || lia). reflexivity.
  - intros Hpos Hall. unfold run_sparql.
    destruct w as [n sl fl]. cbn [net slept files] in *. subst n.
    destruct j as [|j]; [lia|].
    replace (Z.to_nat retries) with (S j) by lia.
    replace (S j - 1)%nat with j by lia.
    apply (loop_exhausted query endpoint retries sleep_sec j 0 sl fl nets errs);
      try assumption; try lia.
    intros k Hk. apply Hsl; lia.
Qed.

(** On the replaying endpoint: two failures, then an answer; and three
    failures in a row. *)
Lemma run_sparql_retry_witness :
  run_sparql (H := replay_platform) "ASK {}" FRAMESTER_SPARQL 3
    (QArith_base.Qmake 8 10)
    (world0 (P := replay_platform)
       [inl (EndpointError "timeout"); inl (EndpointError "reset");
        inr (Ask true)])
  = (Ok (Some (Ask true)),
     mkWorld (H := replay_platform) []
       [@dur_scale replay_platform (QArith_base.Qmake 8 10) 1;
        @dur_scale replay_platform (QArith_base.Qmake 8 10) 2]
       ∅)
  /\ run_sparql (H := replay_platform) "ASK {}" FRAMESTER_SPARQL 3
       (QArith_base.Qmake 8 10)
       (world0 (P := replay_platform)
          [inl (EndpointError "first"); inl (EndpointError "second");
           inl (EndpointError "third"); inr (Ask true)])
     = (Raise (EndpointError "third"),
        mkWorld (H := replay_platform) [inr (Ask true)]
          [@dur_scale replay_platform (QArith_base.Qmake 8 10) 1;
           @dur_scale replay_platform (QArith_base.Qmake 8 10) 2]
          ∅).
Proof.
  split.
  - refine (proj1 (proj2 (run_sparql_retry (H := replay_platform)
              "ASK {}" FRAMESTER_SPARQL 3 (QArith_base.Qmake 8 10)
              (world0 (P := replay_platform)
                 [inl (EndpointError "timeout"); inl (EndpointError "reset");
                  inr (Ask true)])
              (fun k => drop k [inl (EndpointError "timeout");
                                inl (EndpointError "reset"); inr (Ask true)])
              (fun k => match k with
                        | O => EndpointError "timeout"
                        | _ => EndpointError "reset"
                        end)
              2%nat _ _ _ _)) (Ask true) [] eq_refl eq_refl eq_refl).
    + reflexivity.
    + lia.
    + intros [|[|k]] Hk; [reflexivity | reflexivity | lia].
    + intros [|[|k]] Hk _; [reflexivity | reflexivity | lia].
  - refine (proj2 (proj2 (run_sparql_retry (H := replay_platform)
              "ASK {}" FRAMESTER_SPARQL 3 (QArith_base.Qmake 8 10)
              (world0 (P := replay_platform)
                 [inl (EndpointError "first"); inl (EndpointError "second");
                  inl (EndpointError "third"); inr (Ask true)])
              (fun k => drop k [inl (EndpointError "first");
                                inl (EndpointError "second");
                                inl (EndpointError "third"); inr (Ask true)])
              (fun k => match k with
                        | O => EndpointError "first"
                        | S O => EndpointError "second"
                        | _ => EndpointError "third"
                        end)
              3%nat _ _ _ _)) _ eq_refl).
    + reflexivity.
    + lia.
    + intros [|[|[|k]]] Hk; [reflexivity | reflexivity | reflexivity | lia].
    + intros [|[|[|k]]] Hk Hlt; [reflexivity | reflexivity | lia | lia].
    + lia.
Defined.

(** C9.  With a retry count of zero or less the loop body never runs:
    [run_sparql] returns [None] and leaves the world as it was, so no
    request reached the endpoint and nothing was raised. *)
Theorem run_sparql_no_attempt `{Platform} (query endpoint : string)
    (retries : Z) (sleep_sec : Dur) (w : World) :
  retries <= 0 ->
  run_sparql query endpoint retries sleep_sec w = (Ok None, w).
Proof.
  intros Hr. unfold run_sparql.
  replace (Z.to_nat retries) with O by lia. reflexivity.
Qed.

Lemma run_sparql_no_attempt_witness :
  run_sparql (H := replay_platform) "ASK {}" FRAMESTER_SPARQL 0
    (QArith_base.Qmake 8 10) (world0 (P := replay_platform) [inl (EndpointError "timeout")])
  = (Ok None, world0 (P := replay_platform) [inl (EndpointError "timeout")])
  /\ run_sparql (H := replay_platform) "ASK {}" FRAMESTER_SPARQL (-2)
       (QArith_base.Qmake 8 10) (world0 (P := replay_platform) [inr (Ask true)])
     = (Ok None, world0 (P := replay_platform) [inr (Ask true)]).
Proof.
  split.
  - apply (run_sparql_no_attempt (H := replay_platform)). lia.
  - apply (run_sparql_no_attempt (H := replay_platform)). lia.
Defined.

(** C6.  Exact-row deduplication is idempotent, on the mapping table and on
    the overlap table: deduplicating a deduplicated table changes nothing,
    and a table without duplicate rows is left as it is. *)
Theorem drop_duplicates_idempotent :
  (forall df : DataFrame MapRow.t,
     drop_duplicates (drop_duplicates df) = drop_duplicates df
     /\ NoDup (records (drop_duplicates df))
     /\ (NoDup (records df) -> drop_duplicates df = df))
  /\ (forall df : DataFrame Overlap.t,
        drop_duplicates (drop_duplicates df) = drop_duplicates df
        /\ NoDup (records (drop_duplicates df))
        /\ (NoDup (records df) -> drop_duplicates df = df)).
Proof.
  split; intros df.
  - split; [apply drop_duplicates_idem|]. split; [apply NoDup_dedup_go|].
    apply drop_duplicates_fixed.
  - split; [apply drop_duplicates_idem|]. split; [apply NoDup_dedup_go|].
    apply drop_duplicates_fixed.
Qed.

(** ** Label sets and their sorted listings *)

Section Labels.

Lemma sorted_permutation (l : list string) : Str.sorted l ≡ₚ l.
Proof. apply merge_sort_Permutation. Qed.

Lemma sorted_ascending (l : list string) : StronglySorted String.le (Str.sorted l).
Proof. apply (StronglySorted_merge_sort String.le). Qed.

Lemma sorted_elements_NoDup (X : pyset) : NoDup (Str.sorted (elements X)).
Proof. rewrite sorted_permutation. apply NoDup_elements. Qed.

Lemma elem_of_sorted_elements (X : pyset) x :
  x ∈ Str.sorted (elements X) <-> x ∈ X.
Proof. rewrite sorted_permutation. apply elem_of_elements. Qed.

Lemma common_comm l1 l2 : common l1 l2 = common l2 l1.
Proof. unfold common. now rewrite (comm_L (∩)). Qed.

Lemma add_label_invariant (P : string -> Prop) lab (acc : pyset) :
  (forall s, P (Str.strip s)) ->
  (forall x, x ∈ acc -> P x) ->
  forall x, x ∈ add_label lab acc -> P x.
Proof.
  intros HP Hacc x. unfold add_label.
  destruct lab as [[|c s]|]; try apply Hacc.
  rewrite elem_of_union, elem_of_singleton.
  intros [->|Hx]; [apply HP | now apply Hacc].
Qed.

Lemma collect_labels_trimmed bs :
  (forall x, x ∈ (collect_labels bs).1 -> Str.strip x = x)
  /\ (forall x, x ∈ (collect_labels bs).2 -> Str.strip x = x).
Proof.
  unfold collect_labels.
  assert (Hgen : forall (acc : pyset * pyset),
    (forall x, x ∈ acc.1 -> Str.strip x = x) ->
    (forall x, x ∈ acc.2 -> Str.strip x = x) ->
    let out := fold_left (fun '(fe, syn) b =>
                  (add_label (value_of b "feLabel") fe,
                   add_label (value_of b "synLabel") syn)) bs acc in
    (forall x, x ∈ out.1 -> Str.strip x = x)
    /\ (forall x, x ∈ out.2 -> Str.strip x = x)).
  { induction bs as [|b bs IH]; intros [fe syn] H1 H2; simpl; [auto|].
    apply IH; simpl;
      apply (add_label_invariant (fun x => Str.strip x = x));
      auto using strip_idem. }
  apply Hgen; simpl; intros x Hx; now apply not_elem_of_empty in Hx.
Qed.

End Labels.

Section OverlapFacts.
Context `{Platform}.

Lemma get_labels_Ok frame_uri w ls w' :
  get_frame_elements_and_synsets frame_uri w = (Ok ls, w') ->
  exists bs,
    run_sparql_default (Query.labels frame_uri) w = (Ok (Some (Select bs)), w')
    /\ ls = (Str.sorted (elements (collect_labels bs).1),
             Str.sorted (elements (collect_labels bs).2)).
Proof.
  unfold get_frame_elements_and_synsets.
  intros (data & w1 & Hrun & Hk)%bind_Ok.
  apply bind_Ok in Hk as (bs & w2 & [Hb ->]%lift_Ok & Hk).
  destruct data as [[bs'|b]|]; simpl in Hb; try discriminate.
  injection Hb as ->. exists bs.
  destruct (collect_labels bs) as [fe syn]. apply ret_Ok in Hk as [-> ->].
  auto.
Qed.

Lemma get_labels_returns frame_uri w bs w' :
  run_sparql_default (Query.labels frame_uri) w = (Ok (Some (Select bs)), w') ->
  get_frame_elements_and_synsets frame_uri w
  = (Ok (Str.sorted (elements (collect_labels bs).1),
         Str.sorted (elements (collect_labels bs).2)), w').
Proof.
  intros Hrun. unfold get_frame_elements_and_synsets.
  rewrite (bind_run _ _ _ _ _ Hrun). cbn [bindings_of].
  unfold bind, lift. now destruct (collect_labels bs).
Qed.

Lemma compute_overlap_Ok s t w r w' :
  compute_overlap s t w = (Ok r, w') <->
  exists ls w1 lt,
    get_frame_elements_and_synsets s w = (Ok ls, w1)
    /\ get_frame_elements_and_synsets t w1 = (Ok lt, w')
    /\ r = overlap_record s t ls lt.
Proof.
  unfold compute_overlap. rewrite bind_Ok. split.
  - intros (ls & w1 & Hs & (lt & w2 & Ht & [-> ->]%ret_Ok)%bind_Ok).
    eauto 7.
  - intros (ls & w1 & lt & Hs & Ht & ->). exists ls, w1. split; [exact Hs|].
    apply bind_Ok. exists lt, w'. split; [exact Ht|]. reflexivity.
Qed.

End OverlapFacts.

(** C8.  When [get_frame_elements_and_synsets] returns, whatever the
    endpoint answered, each of its two lists is sorted in ascending order,
    has no duplicate, and holds only strings that equal their own trim. *)
Theorem labels_sorted_distinct_trimmed `{Platform} (frame_uri : string)
    (w w' : World) (fe syn : list string) :
  get_frame_elements_and_synsets frame_uri w = (Ok (fe, syn), w') ->
  (StronglySorted String.le fe /\ NoDup fe
   /\ Forall (fun s => Str.strip s = s) fe)
  /\ (StronglySorted String.le syn /\ NoDup syn
      /\ Forall (fun s => Str.strip s = s) syn).
Proof.
  intros (bs & _ & [= -> ->])%get_labels_Ok.
  destruct (collect_labels_trimmed bs) as [Hfe Hsyn].
  repeat split.
  - apply sorted_ascending.
  - apply sorted_elements_NoDup.
  - apply Forall_forall. intros x Hx%elem_of_sorted_elements. now apply Hfe.
  - apply sorted_ascending.
  - apply sorted_elements_NoDup.
  - apply Forall_forall. intros x Hx%elem_of_sorted_elements. now apply Hsyn.
Qed.

(** The source frame of the stateless endpoint: the label [" Agent "] comes
    back trimmed and sorted before ["Goal"]. *)
Lemma labels_sorted_distinct_trimmed_witness :
  get_frame_elements_and_synsets (H := demo_platform) "urn:src"
    (world0 (P := demo_platform) tt)
  = (Ok (["Agent"; "Goal"], ["path"]), world0 (P := demo_platform) tt)
  /\ (StronglySorted String.le ["Agent"; "Goal"] /\ NoDup ["Agent"; "Goal"]
      /\ Forall (fun s => Str.strip s = s) ["Agent"; "Goal"])
  /\ (StronglySorted String.le ["path"] /\ NoDup ["path"]
      /\ Forall (fun s => Str.strip s = s) ["path"]).
Proof.
  assert (Hrun : get_frame_elements_and_synsets (H := demo_platform) "urn:src"
            (world0 (P := demo_platform) tt)
          = (Ok (["Agent"; "Goal"], ["path"]), world0 (P := demo_platform) tt))
    by (vm_compute; reflexivity).
  split; [exact Hrun|].
  exact (labels_sorted_distinct_trimmed (H := demo_platform) _ _ _ _ _ Hrun).
Defined.

(** C7.  If the frame-element labels fetched for the source frame are
    ["Agent"] and ["Goal"] and those fetched for the target frame are
    ["Agent"] and ["Theme"], then [compute_overlap] returns a record with
    [n_common_frame_elements = 1] and [common_frame_elements = "Agent"]. *)
Theorem compute_overlap_agent `{Platform} (source_frame target_frame : string)
    (w w1 w2 : World) (syn_src syn_tgt : list string) :
  get_frame_elements_and_synsets source_frame w
  = (Ok (["Agent"; "Goal"], syn_src), w1) ->
  get_frame_elements_and_synsets target_frame w1
  = (Ok (["Agent"; "Theme"], syn_tgt), w2) ->
  exists r,
    compute_overlap source_frame target_frame w = (Ok r, w2)
    /\ Overlap.n_common_frame_elements r = 1
    /\ Overlap.common_frame_elements r = "Agent".
Proof.
  intros Hs Ht. eexists. split.
  - apply compute_overlap_Ok. eauto 6.
  - split; vm_compute; reflexivity.
Qed.

Lemma compute_overlap_agent_witness :
  exists r,
    compute_overlap (H := demo_platform) "urn:src" "urn:tgt"
      (world0 (P := demo_platform) tt)
    = (Ok r, world0 (P := demo_platform) tt)
    /\ Overlap.n_common_frame_elements r = 1
    /\ Overlap.common_frame_elements r = "Agent".
Proof.
  apply (compute_overlap_agent (H := demo_platform) "urn:src" "urn:tgt"
           (world0 (P := demo_platform) tt) (world0 (P := demo_platform) tt)
           (world0 (P := demo_platform) tt) ["path"] ["path"]).
  - vm_compute; reflexivity.
  - vm_compute; reflexivity.
Defined.

(** C10.  Let the labels fetched for frame [a] and for frame [b] be fixed,
    whatever the state of the world.  Then [compute_overlap a b] and
    [compute_overlap b a] both return a record, the two records have the
    same counts and the same joined contents, and their source and target
    frames are swapped. *)
Theorem compute_overlap_symmetric `{Platform} (a b : string)
    (la lb : list string * list string) :
  (forall w, exists w', get_frame_elements_and_synsets a w = (Ok la, w')) ->
  (forall w, exists w', get_frame_elements_and_synsets b w = (Ok lb, w')) ->
  forall w0 w1, exists r1 r2 w0' w1',
    compute_overlap a b w0 = (Ok r1, w0')
    /\ compute_overlap b a w1 = (Ok r2, w1')
    /\ Overlap.n_common_frame_elements r1 = Overlap.n_common_frame_elements r2
    /\ Overlap.n_common_synset_labels r1 = Overlap.n_common_synset_labels r2
    /\ Overlap.common_frame_elements r1 = Overlap.common_frame_elements r2
    /\ Overlap.common_synset_labels r1 = Overlap.common_synset_labels r2
    /\ Overlap.source_frame r1 = a /\ Overlap.target_frame r1 = b
    /\ Overlap.source_frame r2 = b /\ Overlap.target_frame r2 = a.
Proof.
  intros Ha Hb w0 w1.
  destruct (Ha w0) as [u1 Ha0]. destruct (Hb u1) as [u2 Hb0].
  destruct (Hb w1) as [v1 Hb1]. destruct (Ha v1) as [v2 Ha1].
  exists (overlap_record a b la lb), (overlap_record b a lb la), u2, v2.
  split; [apply compute_overlap_Ok; eauto 6|].
  split; [apply compute_overlap_Ok; eauto 6|].
  unfold overlap_record. cbn.
  rewrite (common_comm (fst la)), (common_comm (snd la)). tauto.
Qed.

Lemma compute_overlap_symmetric_witness :
  exists r1 r2 w0' w1',
    compute_overlap (H := demo_platform) "urn:src" "urn:tgt"
      (world0 (P := demo_platform) tt) = (Ok r1, w0')
    /\ compute_overlap (H := demo_platform) "urn:tgt" "urn:src"
         (world0 (P := demo_platform) tt) = (Ok r2, w1')
    /\ Overlap.n_common_frame_elements r1 = Overlap.n_common_frame_elements r2
    /\ Overlap.n_common_synset_labels r1 = Overlap.n_common_synset_labels r2
    /\ Overlap.common_frame_elements r1 = Overlap.common_frame_elements r2
    /\ Overlap.common_synset_labels r1 = Overlap.common_synset_labels r2
    /\ Overlap.source_frame r1 = "urn:src" /\ Overlap.target_frame r1 = "urn:tgt"
    /\ Overlap.source_frame r2 = "urn:tgt" /\ Overlap.target_frame r2 = "urn:src".
Proof.
  apply (compute_overlap_symmetric (H := demo_platform) "urn:src" "urn:tgt"
           (["Agent"; "Goal"], ["path"]) (["Agent"; "Theme"], ["path"])).
  - intros [n sl fl]. exists (mkWorld (H := demo_platform) n sl fl).
    destruct n. vm_compute; reflexivity.
  - intros [n sl fl]. exists (mkWorld (H := demo_platform) n sl fl).
    destruct n. vm_compute; reflexivity.
Defined.

(** C4, as the code has it.  For every record that [compute_overlap]
    returns, [n_common_frame_elements] is the number of pieces of the
    [common_frame_elements] field split on ["; "] (the empty field having no
    piece), provided no common frame-element label contains ["; "] and the
    common labels are not the empty string alone; likewise for the synset
    labels. *)
Theorem overlap_counts_match_fields `{Platform} (source_frame target_frame : string)
    (w w' : World) (r : Overlap.t) :
  compute_overlap source_frame target_frame w = (Ok r, w') ->
  exists w1 src tgt,
    get_frame_elements_and_synsets source_frame w = (Ok src, w1)
    /\ get_frame_elements_and_synsets target_frame w1 = (Ok tgt, w')
    /\ (common (fst src) (fst tgt) <> [EmptyString] ->
        Forall (fun s => Str.has_sep s = false) (common (fst src) (fst tgt)) ->
        Overlap.n_common_frame_elements r
        = Z.of_nat (length (Str.split_field (Overlap.common_frame_elements r))))
    /\ (common (snd src) (snd tgt) <> [EmptyString] ->
        Forall (fun s => Str.has_sep s = false) (common (snd src) (snd tgt)) ->
        Overlap.n_common_synset_labels r
        = Z.of_nat (length (Str.split_field (Overlap.common_synset_labels r)))).
Proof.
  intros (src & w1 & tgt & Hs & Ht & ->)%compute_overlap_Ok.
  exists w1, src, tgt. split; [exact Hs|]. split; [exact Ht|].
  unfold overlap_record. cbn.
  split; intros Hne Hsep; now rewrite split_field_join.
Qed.

Lemma overlap_counts_match_fields_witness :
  let r := Overlap.mk "urn:src" "urn:tgt" 1 1 "Agent" "path" in
  compute_overlap (H := demo_platform) "urn:src" "urn:tgt"
    (world0 (P := demo_platform) tt)
  = (Ok r, world0 (P := demo_platform) tt)
  /\ Overlap.n_common_frame_elements r
     = Z.of_nat (length (Str.split_field (Overlap.common_frame_elements r)))
  /\ Overlap.n_common_synset_labels r
     = Z.of_nat (length (Str.split_field (Overlap.common_synset_labels r))).
Proof.
  intros r.
  assert (Hrun : compute_overlap (H := demo_platform) "urn:src" "urn:tgt"
                   (world0 (P := demo_platform) tt)
                 = (Ok r, world0 (P := demo_platform) tt))
    by (vm_compute; reflexivity).
  split; [exact Hrun|].
  destruct (overlap_counts_match_fields (H := demo_platform) _ _ _ _ _ Hrun)
    as (w1 & src & tgt & Hs & Ht & Hfe & Hsyn).
  assert (Hsrc : src = (["Agent"; "Goal"], ["path"]))
    by (vm_compute in Hs; congruence).
  assert (Hw1 : w1 = world0 (P := demo_platform) tt)
    by (vm_compute in Hs; vm_compute; congruence).
  subst w1.
  assert (Htgt : tgt = (["Agent"; "Theme"], ["path"]))
    by (vm_compute in Ht; congruence).
  subst src tgt. split.
  - apply Hfe; vm_compute; [discriminate | repeat constructor].
  - apply Hsyn; vm_compute; [discriminate | repeat constructor].
Defined.

(** C4 as stated fails: when both frames carry the label ["a; b"], the one
    common label is counted once but its field splits into two pieces. *)
Lemma overlap_counts_counterexample :
  ~ (forall (P : Platform) (source_frame target_frame : string)
            (w w' : @World P) (r : Overlap.t),
       compute_overlap source_frame target_frame w = (Ok r, w') ->
       Overlap.n_common_frame_elements r
       = Z.of_nat (length (Str.split_field (Overlap.common_frame_elements r)))
       /\ Overlap.n_common_synset_labels r
          = Z.of_nat (length (Str.split_field (Overlap.common_synset_labels r)))).
Proof.
  intros Hclaim.
  pose proof (Hclaim semicolon_platform "urn:a" "urn:b"
                (world0 (P := semicolon_platform) tt)
                (world0 (P := semicolon_platform) tt)
                (Overlap.mk "urn:a" "urn:b" 1 0 "a; b" EmptyString)) as Hc.
  assert (Hrun : compute_overlap (H := semicolon_platform) "urn:a" "urn:b"
                   (world0 (P := semicolon_platform) tt)
                 = (Ok (Overlap.mk "urn:a" "urn:b" 1 0 "a; b" EmptyString),
                    world0 (P := semicolon_platform) tt))
    by (vm_compute; reflexivity).
  destruct (Hc Hrun) as [Hfe _]. vm_compute in Hfe. discriminate Hfe.
Qed.

(** ** Frame typing *)

Section TypingFacts.
Context `{Platform}.

Lemma elem_of_collect_candidates frame_uri bs x :
  x ∈ collect_candidates frame_uri bs
  <-> Exists (fun b => value_or b "candidate" frame_uri = x) bs.
Proof.
  unfold collect_candidates.
  assert (Hgen : forall acc : pyset,
    x ∈ fold_left (fun cand_all b =>
           {[ value_or b "candidate" frame_uri ]} ∪ cand_all) bs acc
    <-> x ∈ acc \/ Exists (fun b => value_or b "candidate" frame_uri = x) bs).
  { induction bs as [|b bs IH]; intros acc; simpl.
    - rewrite Exists_nil. tauto.
    - rewrite IH, Exists_cons, elem_of_union, elem_of_singleton.
      intuition congruence. }
  rewrite Hgen, elem_of_empty. tauto.
Qed.

Lemma type_candidates_subset cs : forall (src tgt : pyset) w s t w',
  type_candidates cs src tgt w = (Ok (s, t), w') ->
  s ⊆ src ∪ list_to_set cs /\ t ⊆ tgt ∪ list_to_set cs.
Proof.
  induction cs as [|c cs IH]; intros src tgt w s t w'.
  - intros [[= -> ->] _]%ret_Ok. set_solver.
  - cbn [type_candidates].
    intros (d2 & w1 & _ & (is_src & w2 & _ & (d3 & w3 & _ &
             (is_tgt & w4 & _ & Hrec)%bind_Ok)%bind_Ok)%bind_Ok)%bind_Ok.
    apply IH in Hrec as [Hs Ht]. clear IH.
    split; intros x Hx; [apply Hs in Hx | apply Ht in Hx];
      rewrite list_to_set_cons; revert Hx;
      [destruct is_src | destruct is_tgt];
      rewrite !elem_of_union; tauto.
Qed.

Lemma expand_Ok frame_uri w info w' :
  expand_equivalents_and_typing frame_uri w = (Ok info, w') ->
  exists bs w1 src tgt,
    run_sparql_default (Query.candidates frame_uri) w
    = (Ok (Some (Select bs)), w1)
    /\ type_candidates (elements (collect_candidates frame_uri bs)) ∅ ∅ w1
       = (Ok (src, tgt), w')
    /\ info = TypingInfo.mk frame_uri
                (elements (collect_candidates frame_uri bs))
                (elements src) (elements tgt).
Proof.
  unfold expand_equivalents_and_typing.
  intros (data & w1 & Hrun & Hk)%bind_Ok.
  apply bind_Ok in Hk as (bs & w2 & [Hb ->]%lift_Ok & Hk).
  destruct data as [[bs'|b]|]; simpl in Hb; try discriminate.
  injection Hb as ->.
  apply bind_Ok in Hk as ([src tgt] & w3 & Hty & [-> ->]%ret_Ok).
  exists bs, w1, src, tgt. auto.
Qed.

End TypingFacts.

(** C3, as the code has it.  In every record that
    [expand_equivalents_and_typing] returns, [as_source] and [as_target]
    are subsets of [candidates], whatever the endpoint answered; and
    [candidates] contains the seed exactly when some binding of the answer
    to the candidate query leaves [?candidate] without a value or gives it
    the seed. *)
Theorem typing_subsets `{Platform} (frame_uri : string) (w w' : World)
    (info : TypingInfo.t) :
  expand_equivalents_and_typing frame_uri w = (Ok info, w') ->
  TypingInfo.seed info = frame_uri
  /\ TypingInfo.as_source info ⊆ TypingInfo.candidates info
  /\ TypingInfo.as_target info ⊆ TypingInfo.candidates info
  /\ exists bs w1,
       run_sparql_default (Query.candidates frame_uri) w
       = (Ok (Some (Select bs)), w1)
       /\ (frame_uri ∈ TypingInfo.candidates info
           <-> Exists (fun b => value_or b "candidate" frame_uri = frame_uri) bs).
Proof.
  intros (bs & w1 & src & tgt & Hrun & Hty & ->)%expand_Ok. cbn.
  apply type_candidates_subset in Hty as [Hs Ht].
  split; [reflexivity|].
  split; [|split].
  - intros x Hx%elem_of_elements. apply elem_of_elements.
    apply Hs in Hx. rewrite list_to_set_elements_L in Hx.
    apply elem_of_union in Hx as [Hx|Hx]; [now apply elem_of_empty in Hx | exact Hx].
  - intros x Hx%elem_of_elements. apply elem_of_elements.
    apply Ht in Hx. rewrite list_to_set_elements_L in Hx.
    apply elem_of_union in Hx as [Hx|Hx]; [now apply elem_of_empty in Hx | exact Hx].
  - exists bs, w1. split; [exact Hrun|].
    rewrite elem_of_elements. apply elem_of_collect_candidates.
Qed.

(** C3 as stated fails: an answer without any binding gives a record whose
    [candidates] is empty, so the seed is not in it. *)
Lemma typing_seed_counterexample :
  ~ (forall (P : Platform) (frame_uri : string) (w w' : @World P)
            (info : TypingInfo.t),
       expand_equivalents_and_typing frame_uri w = (Ok info, w') ->
       TypingInfo.as_source info ⊆ TypingInfo.candidates info
       /\ TypingInfo.as_target info ⊆ TypingInfo.candidates info
       /\ frame_uri ∈ TypingInfo.candidates info).
Proof.
  intros Hclaim.
  assert (Hrun : expand_equivalents_and_typing (H := silent_platform) "urn:f"
                   (world0 (P := silent_platform) tt)
                 = (Ok (TypingInfo.mk "urn:f" [] [] []),
                    world0 (P := silent_platform) tt))
    by (vm_compute; reflexivity).
  destruct (Hclaim silent_platform _ _ _ _ Hrun) as (_ & _ & Hseed).
  cbn in Hseed. now apply elem_of_nil in Hseed.
Qed.

Lemma typing_subsets_witness :
  let info := TypingInfo.mk "urn:src" ["urn:src"; "urn:tgt"] ["urn:src"] ["urn:tgt"] in
  expand_equivalents_and_typing (H := demo_platform) "urn:src"
    (world0 (P := demo_platform) tt)
  = (Ok info, world0 (P := demo_platform) tt)
  /\ TypingInfo.seed info = "urn:src"
  /\ TypingInfo.as_source info ⊆ TypingInfo.candidates info
  /\ TypingInfo.as_target info ⊆ TypingInfo.candidates info
  /\ exists bs w1,
       run_sparql_default (H := demo_platform) (Query.candidates "urn:src")
         (world0 (P := demo_platform) tt)
       = (Ok (Some (Select bs)), w1)
       /\ ("urn:src" ∈ TypingInfo.candidates info
           <-> Exists (fun b => value_or b "candidate" "urn:src" = "urn:src") bs).
Proof.
  intros info.
  assert (Hrun : expand_equivalents_and_typing (H := demo_platform) "urn:src"
                   (world0 (P := demo_platform) tt)
                 = (Ok info, world0 (P := demo_platform) tt))
    by (vm_compute; reflexivity).
  split; [exact Hrun|].
  exact (typing_subsets (H := demo_platform) _ _ _ _ Hrun).
Defined.

(** ** The mapping stage *)

Section MappingFacts.
Context `{Platform}.

Lemma fetch_mappings_rows ms : forall acc w out w',
  fetch_mappings ms acc w = (Ok out, w') ->
  (forall r, r ∈ acc -> r ∈ out)
  /\ forall m, m ∈ ms ->
       exists w1 w2 rows,
         get_mappings_roles_entailments m w1 = (Ok rows, w2)
         /\ (rows = [] -> placeholder m ∈ out)
         /\ (forall r, r ∈ rows -> r ∈ out).
Proof.
  induction ms as [|m ms IH]; intros acc w out w'.
  - intros [-> ->]%ret_Ok. split; [auto|]. intros m Hm.
    now apply elem_of_nil in Hm.
  - cbn [fetch_mappings]. intros (rows & w1 & Hget & Hrec)%bind_Ok.
    assert (Hnext : fetch_mappings ms
              (acc ++ match rows with [] => [placeholder m] | _ => rows end) w1
            = (Ok out, w')) by (now destruct rows).
    apply IH in Hnext as [Hacc Htail]. split.
    + intros r Hr. apply Hacc, elem_of_app. now left.
    + intros m0 [->|Hm0]%elem_of_cons; [|now apply Htail].
      exists w, w1, rows. split; [exact Hget|]. split.
      * intros ->. apply Hacc, elem_of_app. right. apply list_elem_of_singleton.
        reflexivity.
      * intros r Hr. apply Hacc, elem_of_app. right.
        destruct rows; [now apply elem_of_nil in Hr | exact Hr].
Qed.

Lemma mapping_stage_Ok selected w df w' :
  mapping_stage selected w = (Ok df, w') ->
  exists rows w1,
    fetch_mappings selected [] w = (Ok rows, w1)
    /\ df = drop_duplicates (data_frame rows).
Proof.
  unfold mapping_stage. intros (rows & w1 & Hfetch & Hk)%bind_Ok.
  apply bind_Ok in Hk as (u & w2 & _ & [-> ->]%ret_Ok). eauto.
Qed.

Lemma fetch_mappings_app l1 : forall l2 acc w,
  fetch_mappings (l1 ++ l2) acc w
  = bind (fetch_mappings l1 acc) (fun acc1 => fetch_mappings l2 acc1) w.
Proof.
  induction l1 as [|m l1 IH]; intros l2 acc w; [reflexivity|].
  cbn [app fetch_mappings]. unfold bind at 1 2 3.
  destruct (get_mappings_roles_entailments m w) as [[rows|e] w1]; [|reflexivity].
  destruct rows; apply IH.
Qed.

(** The iteration of the loop for the metaphor at a given place of the
    list: the rows fetched before it, the fetch made for it in the world
    reached then, and the rest of the loop. *)
Lemma fetch_mappings_at pre m post acc0 w out w' :
  fetch_mappings (pre ++ m :: post) acc0 w = (Ok out, w') ->
  exists acc w1 rows w2,
    fetch_mappings pre acc0 w = (Ok acc, w1)
    /\ get_mappings_roles_entailments m w1 = (Ok rows, w2)
    /\ fetch_mappings post
         (acc ++ match rows with [] => [placeholder m] | _ => rows end) w2
       = (Ok out, w').
Proof.
  rewrite fetch_mappings_app. intros (acc & w1 & Hpre & Hrest)%bind_Ok.
  cbn [fetch_mappings] in Hrest.
  apply bind_Ok in Hrest as (rows & w2 & Hget & Hpost).
  exists acc, w1, rows, w2. split; [exact Hpre|]. split; [exact Hget|].
  now destruct rows.
Qed.

Lemma fetch_mappings_upto pre m acc0 w acc w1 rows w2 :
  fetch_mappings pre acc0 w = (Ok acc, w1) ->
  get_mappings_roles_entailments m w1 = (Ok rows, w2) ->
  fetch_mappings (pre ++ [m]) acc0 w
  = (Ok (acc ++ match rows with [] => [placeholder m] | _ => rows end), w2).
Proof.
  intros Hpre Hget. rewrite fetch_mappings_app, (bind_run _ _ _ _ _ Hpre).
  cbn [fetch_mappings]. rewrite (bind_run _ _ _ _ _ Hget). now destruct rows.
Qed.

End MappingFacts.

(** C2, as the code has it.  Let the mapping stage have completed, and
    take the metaphor [m] at any place of the configured list.  In this
    very run, the loop first fetched the metaphors before [m], reaching a
    world [w1], and then fetched [m] there, which returned [rows].  If
    there was no row, the loop added exactly one row for [m], its
    placeholder (its identifier and six nulls), and the table holds that
    placeholder exactly once.  Otherwise the loop added [rows] and the
    table holds every one of them.  So the table has a row whose metaphor
    field is [m] as soon as the rows returned for [m] in this run carry [m]
    in that field. *)
Theorem mapping_rows_per_metaphor `{Platform} (selected : list string)
    (w w' : World) (df : DataFrame MapRow.t) (pre post : list string)
    (m : string) :
  mapping_stage selected w = (Ok df, w') ->
  selected = pre ++ m :: post ->
  exists acc w1 rows w2,
    fetch_mappings pre [] w = (Ok acc, w1)
    /\ get_mappings_roles_entailments m w1 = (Ok rows, w2)
    /\ fetch_mappings (pre ++ [m]) [] w
       = (Ok (acc ++ match rows with [] => [placeholder m] | _ => rows end), w2)
    /\ (rows = [] ->
        count_occ MapRow_eq_dec (records df) (placeholder m) = 1%nat)
    /\ (forall r, r ∈ rows -> r ∈ records df)
    /\ ((forall r, r ∈ rows -> MapRow.metaphor r = Some m) ->
        exists r, r ∈ records df /\ MapRow.metaphor r = Some m).
Proof.
  intros (all_rows & u & Hfetch & ->)%mapping_stage_Ok ->.
  apply fetch_mappings_at in Hfetch as (acc & w1 & rows & w2 & Hpre & Hget & Hpost).
  apply fetch_mappings_rows in Hpost as [Hacc _].
  assert (Hin : forall r, r ∈ all_rows ->
                  r ∈ records (drop_duplicates (data_frame all_rows))).
  { intros r Hr. cbn. apply elem_of_dedup_go. split; [exact Hr|].
    apply not_elem_of_nil. }
  assert (Hnone : rows = [] -> placeholder m ∈ all_rows).
  { intros ->. apply Hacc, elem_of_app. right. now left. }
  assert (Hsome : forall r, r ∈ rows -> r ∈ all_rows).
  { intros r Hr. apply Hacc, elem_of_app. right.
    destruct rows; [now apply elem_of_nil in Hr | exact Hr]. }
  exists acc, w1, rows, w2. split; [exact Hpre|]. split; [exact Hget|].
  split; [exact (fetch_mappings_upto _ _ _ _ _ _ _ _ Hpre Hget)|]. split; [|split].
  - intros Hrows.
    apply NoDup_count_occ'; [apply NoDup_ListNoDup, NoDup_dedup_go|].
    apply list_elem_of_In, Hin, Hnone, Hrows.
  - intros r Hr. apply Hin, Hsome, Hr.
  - intros Hconf. destruct rows as [|r0 rows].
    + exists (placeholder m). split; [apply Hin, Hnone; reflexivity | reflexivity].
    + exists r0. split; [apply Hin, Hsome; now left | apply Hconf; now left].
Qed.

(** Two metaphors on the replaying endpoint: the first request is answered
    with one row, the second with none; the second metaphor gets its
    placeholder. *)
Lemma mapping_rows_per_metaphor_witness :
  let answer1 := <["src" := {[ "value" := "urn:src" ]}]> (bound "metaphor" "urn:m1") in
  let row1 := MapRow.mk (Some "urn:m1") (Some "urn:src") None None None None None in
  let df := mkDataFrame (keys (R := MapRow.t)) [row1; placeholder "urn:m2"] in
  let w := world0 (P := replay_platform) [inr (Select [answer1]); inr (Select [])] in
  fst (mapping_stage (H := replay_platform) ["urn:m1"; "urn:m2"] w) = Ok df
  /\ exists acc w1 rows w2,
       fetch_mappings (H := replay_platform) ["urn:m1"] [] w = (Ok acc, w1)
       /\ get_mappings_roles_entailments (H := replay_platform) "urn:m2" w1
          = (Ok rows, w2)
       /\ fetch_mappings (H := replay_platform) (["urn:m1"] ++ ["urn:m2"]) [] w
          = (Ok (acc ++ match rows with
                        | [] => [placeholder "urn:m2"]
                        | _ => rows
                        end), w2)
       /\ (rows = [] ->
           count_occ MapRow_eq_dec (records df) (placeholder "urn:m2") = 1%nat)
       /\ (forall r, r ∈ rows -> r ∈ records df)
       /\ ((forall r, r ∈ rows -> MapRow.metaphor r = Some "urn:m2") ->
           exists r, r ∈ records df /\ MapRow.metaphor r = Some "urn:m2").
Proof.
  intros answer1 row1 df w.
  assert (Hrun : mapping_stage (H := replay_platform) ["urn:m1"; "urn:m2"] w
                 = (Ok df,
                    mkWorld (H := replay_platform) [] []
                      {[ "metaphor_mappings_roles_entailments.csv" := csv_of df ]}))
    by (vm_compute; reflexivity).
  split; [now rewrite Hrun|].
  exact (mapping_rows_per_metaphor (H := replay_platform) _ _ _ _
           ["urn:m1"] [] "urn:m2" Hrun eq_refl).
Defined.

(** C2 as stated fails: when the one row answered for a metaphor leaves
    [?metaphor] unbound, the table has that row and no row for the
    metaphor. *)
Lemma mapping_rows_counterexample :
  ~ (forall (P : Platform) (selected : list string) (w w' : @World P)
            (df : DataFrame MapRow.t) (m : string),
       mapping_stage selected w = (Ok df, w') ->
       m ∈ selected ->
       exists r, r ∈ records df /\ MapRow.metaphor r = Some m).
Proof.
  intros Hclaim.
  pose (df := mkDataFrame (keys (R := MapRow.t))
                [MapRow.mk None None None None None None None]).
  assert (Hrun : mapping_stage (H := unbound_platform) ["urn:m1"]
                   (world0 (P := unbound_platform) tt)
                 = (Ok df,
                    mkWorld (H := unbound_platform) tt []
                      {[ "metaphor_mappings_roles_entailments.csv" := csv_of df ]}))
    by (vm_compute; reflexivity).
  destruct (Hclaim unbound_platform _ _ _ _ "urn:m1" Hrun) as (r & Hr & Hm).
  - apply elem_of_cons. now left.
  - cbn in Hr. apply list_elem_of_singleton in Hr. subst r. discriminate Hm.
Qed.

(** C5, on the code.  With no metaphor configured, [main] writes a mapping
    table that has no row and no header either, then stops with the
    [KeyError] of the missing [source_frame] column; the typing and overlap
    tables are never written. *)
Theorem main_without_metaphors `{Platform} (w : World) :
  main [] w
  = (Raise (KeyError "source_frame"),
     mkWorld (net w) (slept w)
       (<["metaphor_mappings_roles_entailments.csv" := mkCsv [] []]> (files w))).
Proof. reflexivity. Qed.

(** * Further properties of the script *)

(** ** More on the retry loop *)

Section RetryTrace.
Context `{Platform}.
Variables (query endpoint : string) (retries : Z) (sleep_sec : Dur).

Lemma loop_unfold todo attempt w :
  run_sparql_loop (S todo) attempt query endpoint retries sleep_sec w
  = match send endpoint query (net w) with
    | (inr res, n) => (Ok (Some res), mkWorld n (slept w) (files w))
    | (inl e, n) =>
        if attempt =? retries - 1 then (Raise e, mkWorld n (slept w) (files w))
        else if sleep_accepts (dur_scale sleep_sec (attempt + 1)) then
          run_sparql_loop todo (attempt + 1) query endpoint retries sleep_sec
            (mkWorld n (slept w ++ [dur_scale sleep_sec (attempt + 1)]) (files w))
        else (Raise (ValueError "sleep length must be non-negative"),
              mkWorld n (slept w) (files w))
    end.
Proof.
  cbn [run_sparql_loop]. unfold query_convert.
  destruct (send endpoint query (net w)) as [[e|res] n]; [|reflexivity].
  destruct (attempt =? retries - 1); [reflexivity|].
  unfold bind, time_sleep. cbn [net slept files].
  now destruct (sleep_accepts (dur_scale sleep_sec (attempt + 1))).
Qed.

Lemma loop_never_none todo : forall attempt w d w',
  attempt + Z.of_nat todo = retries -> (0 < todo)%nat ->
  run_sparql_loop todo attempt query endpoint retries sleep_sec w = (Ok d, w') ->
  exists res, d = Some res.
Proof.
  induction todo as [|todo IH]; intros attempt w d w' Hinv Hpos; [lia|].
  rewrite loop_unfold.
  destruct (send endpoint query (net w)) as [[e|res] n].
  - destruct (attempt =? retries - 1) eqn:Hlast; [discriminate|].
    apply Z.eqb_neq in Hlast.
    destruct (sleep_accepts _); [|discriminate].
    apply IH; lia.
  - intros [= <- _]. eauto.
Qed.

Lemma loop_trace todo : forall attempt w,
  exists k, (k <= todo)%nat
    /\ (attempt + Z.of_nat todo = retries -> (0 < todo)%nat -> (k < todo)%nat)
    /\ slept (run_sparql_loop todo attempt query endpoint retries sleep_sec w).2
       = slept w ++ backoff_delays sleep_sec attempt k
    /\ files (run_sparql_loop todo attempt query endpoint retries sleep_sec w).2
       = files w.
Proof.
  induction todo as [|todo IH]; intros attempt w.
  - exists 0%nat. cbn. rewrite app_nil_r. repeat split; lia.
  - rewrite loop_unfold.
    destruct (send endpoint query (net w)) as [[e|res] n].
    + destruct (attempt =? retries - 1) eqn:Hlast.
      * exists 0%nat. cbn. rewrite app_nil_r. repeat split; lia.
      * apply Z.eqb_neq in Hlast.
        destruct (sleep_accepts (dur_scale sleep_sec (attempt + 1))).
        -- destruct (IH (attempt + 1)
                       (mkWorld n (slept w ++ [dur_scale sleep_sec (attempt + 1)])
                                (files w)))
             as (k & Hk & Hlt & Hsl & Hfl).
           exists (S k). split; [lia|]. split.
           { intros Hinv _. assert (0 < todo)%nat by lia.
             specialize (Hlt ltac:(lia) ltac:(lia)). lia. }
           rewrite Hsl, Hfl. cbn [slept files].
           rewrite delays_S, <- app_assoc. auto.
        -- exists 0%nat. cbn. rewrite app_nil_r. repeat split; lia.
    + exists 0%nat. cbn. rewrite app_nil_r. repeat split; lia.
Qed.

End RetryTrace.

(** X1.  With a positive retry count [run_sparql] never returns [None]:
    whenever it returns, it returns the answer of an attempt. *)
Theorem run_sparql_returns_answer `{Platform} (query endpoint : string)
    (retries : Z) (sleep_sec : Dur) (w w' : World) (d : option Response) :
  0 < retries ->
  run_sparql query endpoint retries sleep_sec w = (Ok d, w') ->
  exists res, d = Some res.
Proof.
  intros Hpos Hrun. unfold run_sparql in Hrun.
  apply (loop_never_none query endpoint retries sleep_sec (Z.to_nat retries)
           0 w d w'); [lia | lia | exact Hrun].
Qed.

Lemma run_sparql_returns_answer_witness :
  run_sparql (H := replay_platform) "ASK {}" FRAMESTER_SPARQL 2
    (QArith_base.Qmake 8 10)
    (world0 (P := replay_platform)
       [inl (EndpointError "timeout"); inr (Ask false)])
  = (Ok (Some (Ask false)),
     mkWorld (H := replay_platform) []
       [@dur_scale replay_platform (QArith_base.Qmake 8 10) 1] ∅)
  /\ exists res, Some (Ask false) = Some res.
Proof.
  assert (Hrun : run_sparql (H := replay_platform) "ASK {}" FRAMESTER_SPARQL 2
            (QArith_base.Qmake 8 10)
            (world0 (P := replay_platform)
               [inl (EndpointError "timeout"); inr (Ask false)])
          = (Ok (Some (Ask false)),
             mkWorld (H := replay_platform) []
               [@dur_scale replay_platform (QArith_base.Qmake 8 10) 1] ∅))
    by reflexivity.
  split; [exact Hrun|].
  apply (run_sparql_returns_answer (H := replay_platform) _ _ 2 _ _ _ _
           ltac:(lia) Hrun).
Defined.

(** X2.  Whatever the endpoint does and however [run_sparql] ends, it
    leaves the files alone, and what it has slept is a run of linear
    backoff delays [backoff * 1, ..., backoff * k] with [k] below the retry
    count (no delay at all when the retry count is not positive). *)
Theorem run_sparql_sleep_trace `{Platform} (query endpoint : string)
    (retries : Z) (sleep_sec : Dur) (w : World) :
  exists k : nat,
    (Z.of_nat k < retries \/ k = 0%nat)
    /\ slept (run_sparql query endpoint retries sleep_sec w).2
       = slept w ++ backoff_delays sleep_sec 0 k
    /\ files (run_sparql query endpoint retries sleep_sec w).2 = files w.
Proof.
  unfold run_sparql.
  destruct (loop_trace query endpoint retries sleep_sec (Z.to_nat retries) 0 w)
    as (k & Hk & Hlt & Hsl & Hfl).
  exists k. split; [|auto].
  destruct (Z.to_nat retries) as [|t] eqn:Ht.
  - right. lia.
  - left. assert (k < S t)%nat by (apply Hlt; lia). lia.
Qed.

(** X3.  When an attempt that is not the last one fails and [time.sleep]
    refuses the delay (a negative backoff), [run_sparql] ends with the
    [ValueError] of [time.sleep]: the failed request is the only one made
    and nothing is slept. *)
Theorem run_sparql_refused_sleep `{Platform} (query endpoint : string)
    (retries : Z) (sleep_sec : Dur) (w : World) (e : Exn) (n : Net) :
  1 < retries ->
  send endpoint query (net w) = (inl e, n) ->
  sleep_accepts (dur_scale sleep_sec 1) = false ->
  run_sparql query endpoint retries sleep_sec w
  = (Raise (ValueError "sleep length must be non-negative"),
     mkWorld n (slept w) (files w)).
Proof.
  intros Hr Hsend Hsl. unfold run_sparql.
  destruct (Z.to_nat retries) as [|t] eqn:Ht; [lia|].
  rewrite loop_unfold, Hsend.
  replace (0 =? retries - 1) with false by (symmetry; apply Z.eqb_neq; lia).
  change (0 + 1) with 1. now rewrite Hsl.
Qed.

Lemma run_sparql_refused_sleep_witness :
  run_sparql (H := replay_platform) "ASK {}" FRAMESTER_SPARQL 3
    (QArith_base.Qmake (-1) 2)
    (world0 (P := replay_platform) [inl (EndpointError "timeout"); inr (Ask true)])
  = (Raise (ValueError "sleep length must be non-negative"),
     world0 (P := replay_platform) [inr (Ask true)]).
Proof.
  apply (run_sparql_refused_sleep (H := replay_platform) "ASK {}"
           FRAMESTER_SPARQL 3 (QArith_base.Qmake (-1) 2)
           (world0 (P := replay_platform)
              [inl (EndpointError "timeout"); inr (Ask true)])
           (EndpointError "timeout") [inr (Ask true)]).
  - lia.
  - reflexivity.
  - reflexivity.
Defined.

(** ** More on trimming *)

Section StripFacts.

Lemma strip_head s c t :
  Str.strip s = String c t -> Str.isspace c = false.
Proof.
  unfold Str.strip. pose proof (lstrip_head s) as Hh.
  destruct (Str.lstrip s) as [|c0 t0]; [discriminate|].
  rewrite (rstrip_cons_nonspace c0 t0 Hh). now intros [= <- _].
Qed.

Lemma rstrip_last s : forall t c,
  Str.rstrip s = t +:+ String c EmptyString -> Str.isspace c = false.
Proof.
  induction s as [|a s IH]; intros t c.
  - destruct t; discriminate.
  - simpl. destruct (Str.rstrip s) as [|b r] eqn:E.
    + destruct (Str.isspace a) eqn:Ha.
      * destruct t; discriminate.
      * destruct t as [|a' t']; [now intros [= <-]|].
        intros [= _ Ht]. destruct t'; discriminate.
    + destruct t as [|a' t']; [discriminate|].
      intros [= _ Ht]. exact (IH t' c Ht).
Qed.

Lemma strip_last s t c :
  Str.strip s = t +:+ String c EmptyString -> Str.isspace c = false.
Proof. unfold Str.strip. apply rstrip_last. Qed.

Lemma lstrip_empty s :
  Str.lstrip s = EmptyString
  <-> Forall (fun c => Str.isspace c = true) (list_ascii_of_string s).
Proof.
  induction s as [|c s IH]; simpl.
  - split; [intros _; constructor | reflexivity].
  - destruct (Str.isspace c) eqn:Hc.
    + rewrite IH. split; [now constructor | now intros [_ ?]%Forall_cons].
    + split; [discriminate | intros [? _]%Forall_cons; congruence].
Qed.

Lemma rstrip_empty s :
  Str.rstrip s = EmptyString
  <-> Forall (fun c => Str.isspace c = true) (list_ascii_of_string s).
Proof.
  induction s as [|c s IH]; simpl.
  - split; [intros _; constructor | reflexivity].
  - destruct (Str.rstrip s) as [|b r] eqn:E.
    + destruct (Str.isspace c) eqn:Hc.
      * split; [intros _; constructor; [exact Hc | now apply IH] | reflexivity].
      * split; [discriminate | intros [? _]%Forall_cons; congruence].
    + split; [discriminate|].
      intros [_ Hs]%Forall_cons. apply IH in Hs. discriminate.
Qed.

Lemma strip_empty s :
  Str.strip s = EmptyString
  <-> Forall (fun c => Str.isspace c = true) (list_ascii_of_string s).
Proof.
  unfold Str.strip. rewrite rstrip_empty, <- (lstrip_empty s).
  pose proof (lstrip_head s) as Hh.
  destruct (Str.lstrip s) as [|c t]; simpl.
  - split; [reflexivity | intros _; constructor].
  - split; [intros [? _]%Forall_cons; congruence | discriminate].
Qed.

End StripFacts.

(** ** More on the labels of a frame *)

Section LabelMembership.

Lemma elem_of_add_label lab (acc : pyset) x :
  x ∈ add_label lab acc
  <-> x ∈ acc \/ exists s, lab = Some s /\ s <> EmptyString /\ x = Str.strip s.
Proof.
  unfold add_label. destruct lab as [[|c s]|].
  - split; [auto|]. intros [?|(s & [= <-] & Hne & _)]; [assumption | congruence].
  - rewrite elem_of_union, elem_of_singleton. split.
    + intros [->|?]; [|auto]. right. eexists. split; [reflexivity|].
      split; [discriminate | reflexivity].
    + intros [?|(s' & [= <-] & _ & ->)]; auto.
  - split; [auto|]. intros [?|(s & Hs & _)]; [assumption | discriminate].
Qed.

Lemma collect_labels_fold bs : forall fe syn : pyset,
  fold_left (fun '(fe, syn) b =>
               (add_label (value_of b "feLabel") fe,
                add_label (value_of b "synLabel") syn)) bs (fe, syn)
  = (fold_left (fun acc b => add_label (value_of b "feLabel") acc) bs fe,
     fold_left (fun acc b => add_label (value_of b "synLabel") acc) bs syn).
Proof.
  induction bs as [|b bs IH]; intros fe syn; [reflexivity|].
  simpl. apply IH.
Qed.

Lemma elem_of_fold_labels var bs : forall (acc : pyset) x,
  x ∈ fold_left (fun acc b => add_label (value_of b var) acc) bs acc
  <-> x ∈ acc
      \/ exists b s, b ∈ bs /\ value_of b var = Some s
                     /\ s <> EmptyString /\ x = Str.strip s.
Proof.
  induction bs as [|b bs IH]; intros acc x; simpl.
  - split; [auto|]. intros [?|(b & s & Hb & _)]; [assumption|].
    now apply elem_of_nil in Hb.
  - rewrite IH, elem_of_add_label. split.
    + intros [[?|(s & Hs & Hne & ->)]|(b' & s & Hb & Hs & Hne & ->)]; [auto| |].
      * right. exists b, s. rewrite elem_of_cons. auto.
      * right. exists b', s. rewrite elem_of_cons. auto.
    + intros [?|(b' & s & [->|Hb]%elem_of_cons & Hs & Hne & ->)]; [auto| |].
      * left. right. eauto.
      * right. eauto 6.
Qed.

Lemma elem_of_collect_labels bs x :
  (x ∈ (collect_labels bs).1
   <-> exists b s, b ∈ bs /\ value_of b "feLabel" = Some s
                   /\ s <> EmptyString /\ x = Str.strip s)
  /\ (x ∈ (collect_labels bs).2
      <-> exists b s, b ∈ bs /\ value_of b "synLabel" = Some s
                      /\ s <> EmptyString /\ x = Str.strip s).
Proof.
  unfold collect_labels. rewrite collect_labels_fold. cbn [fst snd].
  rewrite !elem_of_fold_labels, !elem_of_empty. tauto.
Qed.

End LabelMembership.

Lemma labels_are_trimmed_values_aux `{Platform} (frame_uri : string)
    (w w' : World) (fe syn : list string) :
  get_frame_elements_and_synsets frame_uri w = (Ok (fe, syn), w') ->
  exists bs : list Binding,
    (forall x, x ∈ fe
       <-> exists b s, b ∈ bs /\ value_of b "feLabel" = Some s
                       /\ s <> EmptyString /\ x = Str.strip s)
    /\ (forall x, x ∈ syn
          <-> exists b s, b ∈ bs /\ value_of b "synLabel" = Some s
                          /\ s <> EmptyString /\ x = Str.strip s).
Proof.
  intros (bs & Hrun & [= -> ->])%get_labels_Ok.
  exists bs.
  split; intros x; rewrite elem_of_sorted_elements; apply elem_of_collect_labels.
Qed.

(** X4.  Which labels [get_frame_elements_and_synsets] returns: a string is
    in the first list exactly when it is the trim of a non-empty [?feLabel]
    value of some binding of the answer, and in the second list exactly when
    it is the trim of a non-empty [?synLabel] value. *)
Theorem labels_are_trimmed_values `{Platform} (frame_uri : string)
    (w w' : World) (fe syn : list string) :
  get_frame_elements_and_synsets frame_uri w = (Ok (fe, syn), w') ->
  exists bs,
    run_sparql_default (Query.labels frame_uri) w = (Ok (Some (Select bs)), w')
    /\ (forall x, x ∈ fe
          <-> exists b s, b ∈ bs /\ value_of b "feLabel" = Some s
                          /\ s <> EmptyString /\ x = Str.strip s)
    /\ (forall x, x ∈ syn
          <-> exists b s, b ∈ bs /\ value_of b "synLabel" = Some s
                          /\ s <> EmptyString /\ x = Str.strip s).
Proof.
  intros (bs & Hrun & [= -> ->])%get_labels_Ok.
  exists bs. split; [exact Hrun|].
  split; intros x; rewrite elem_of_sorted_elements; apply elem_of_collect_labels.
Qed.

Lemma labels_are_trimmed_values_witness :
  exists bs,
    run_sparql_default (H := demo_platform) (Query.labels "urn:src")
      (world0 (P := demo_platform) tt)
    = (Ok (Some (Select bs)), world0 (P := demo_platform) tt)
    /\ (forall x, x ∈ ["Agent"; "Goal"]
          <-> exists b s, b ∈ bs /\ value_of b "feLabel" = Some s
                          /\ s <> EmptyString /\ x = Str.strip s)
    /\ (forall x, x ∈ ["path"]
          <-> exists b s, b ∈ bs /\ value_of b "synLabel" = Some s
                          /\ s <> EmptyString /\ x = Str.strip s).
Proof.
  apply (labels_are_trimmed_values (H := demo_platform) "urn:src"
           (world0 (P := demo_platform) tt) (world0 (P := demo_platform) tt)).
  vm_compute; reflexivity.
Defined.

(** X5.  The truthiness test on a label comes before its trimming: the
    empty string is among the frame-element labels returned exactly when
    some binding carries a non-empty [?feLabel] made of whitespace only. *)
Theorem whitespace_label_becomes_empty `{Platform} (frame_uri : string)
    (w w' : World) (fe syn : list string) :
  get_frame_elements_and_synsets frame_uri w = (Ok (fe, syn), w') ->
  exists bs,
    run_sparql_default (Query.labels frame_uri) w = (Ok (Some (Select bs)), w')
    /\ (EmptyString ∈ fe
        <-> exists b s, b ∈ bs /\ value_of b "feLabel" = Some s
              /\ s <> EmptyString
              /\ Forall (fun c => Str.isspace c = true) (list_ascii_of_string s)).
Proof.
  intros (bs & Hrun & [= -> ->])%get_labels_Ok.
  exists bs. split; [exact Hrun|].
  rewrite elem_of_sorted_elements.
  rewrite (proj1 (elem_of_collect_labels bs EmptyString)).
  split; intros (b & s & Hb & Hs & Hne & Hx); exists b, s;
    (split; [exact Hb|]); (split; [exact Hs|]); (split; [exact Hne|]).
  - apply strip_empty. now symmetry.
  - symmetry. now apply strip_empty.
Qed.

Lemma whitespace_label_becomes_empty_witness :
  get_frame_elements_and_synsets
    (H := oracle_platform (fun _ => inr (Select [bound "feLabel" "  "])))
    "urn:f" (mkWorld (H := oracle_platform _) tt [] ∅)
  = (Ok ([EmptyString], []), mkWorld (H := oracle_platform _) tt [] ∅)
  /\ exists bs,
       run_sparql_default
         (H := oracle_platform (fun _ => inr (Select [bound "feLabel" "  "])))
         (Query.labels "urn:f") (mkWorld (H := oracle_platform _) tt [] ∅)
       = (Ok (Some (Select bs)), mkWorld (H := oracle_platform _) tt [] ∅)
       /\ (EmptyString ∈ [EmptyString]
           <-> exists b s, b ∈ bs /\ value_of b "feLabel" = Some s
                 /\ s <> EmptyString
                 /\ Forall (fun c => Str.isspace c = true)
                           (list_ascii_of_string s)).
Proof.
  assert (Hrun : get_frame_elements_and_synsets
            (H := oracle_platform (fun _ => inr (Select [bound "feLabel" "  "])))
            "urn:f" (mkWorld (H := oracle_platform _) tt [] ∅)
          = (Ok ([EmptyString], []), mkWorld (H := oracle_platform _) tt [] ∅))
    by (vm_compute; reflexivity).
  split; [exact Hrun|].
  exact (whitespace_label_becomes_empty _ _ _ _ _ Hrun).
Defined.

(** X6.  No label returned by [get_frame_elements_and_synsets] begins or
    ends with a whitespace character. *)
Theorem labels_have_no_outer_whitespace `{Platform} (frame_uri : string)
    (w w' : World) (fe syn : list string) (x : string) :
  get_frame_elements_and_synsets frame_uri w = (Ok (fe, syn), w') ->
  x ∈ fe \/ x ∈ syn ->
  (forall c t, x = String c t -> Str.isspace c = false)
  /\ (forall t c, x = t +:+ String c EmptyString -> Str.isspace c = false).
Proof.
  intros Hget Hx.
  destruct (labels_are_trimmed_values_aux _ _ _ _ _ Hget) as (bs & Hfe & Hsyn).
  assert (Hs : exists s, x = Str.strip s).
  { destruct Hx as [Hx|Hx]; [apply Hfe in Hx | apply Hsyn in Hx];
      destruct Hx as (_ & s & _ & _ & _ & ->); eauto. }
  destruct Hs as [s ->]. split.
  - intros c t. apply strip_head.
  - intros t c. apply strip_last.
Qed.

Lemma labels_have_no_outer_whitespace_witness :
  (forall c t, "Agent" = String c t -> Str.isspace c = false)
  /\ (forall t c, "Agent" = t +:+ String c EmptyString -> Str.isspace c = false).
Proof.
  apply (labels_have_no_outer_whitespace (H := demo_platform) "urn:src"
           (world0 (P := demo_platform) tt) (world0 (P := demo_platform) tt)
           ["Agent"; "Goal"] ["path"] "Agent").
  - vm_compute; reflexivity.
  - left. apply elem_of_cons. now left.
Defined.

(** ** More on the overlap of two frames *)

Section CommonFacts.

Lemma elem_of_common l1 l2 x : x ∈ common l1 l2 <-> x ∈ l1 /\ x ∈ l2.
Proof.
  unfold common.
  now rewrite elem_of_sorted_elements, elem_of_intersection,
    !elem_of_list_to_set.
Qed.

Lemma common_NoDup l1 l2 : NoDup (common l1 l2).
Proof. apply sorted_elements_NoDup. Qed.

Lemma common_ascending l1 l2 : StronglySorted String.le (common l1 l2).
Proof. apply sorted_ascending. Qed.

Lemma common_length_l l1 l2 : (length (common l1 l2) <= length l1)%nat.
Proof.
  apply submseteq_length, NoDup_submseteq; [apply common_NoDup|].
  intros x Hx. now apply elem_of_common in Hx as [? _].
Qed.

Lemma common_length_r l1 l2 : (length (common l1 l2) <= length l2)%nat.
Proof. rewrite common_comm. apply common_length_l. Qed.

Lemma common_self l :
  StronglySorted String.le l -> NoDup l -> common l l = l.
Proof.
  intros Hs Hnd.
  apply (StronglySorted_unique String.le);
    [apply common_ascending | exact Hs |].
  apply NoDup_Permutation; [apply common_NoDup | exact Hnd |].
  intros x. rewrite elem_of_common. tauto.
Qed.

Lemma common_disjoint l1 l2 :
  (forall x, x ∈ l1 -> x ∉ l2) -> common l1 l2 = [].
Proof.
  intros Hd. destruct (common l1 l2) as [|x l] eqn:E; [reflexivity|].
  assert (Hx : x ∈ common l1 l2) by (rewrite E; now left).
  apply elem_of_common in Hx as [H1 H2]. now apply Hd in H1.
Qed.

End CommonFacts.

(** X7.  What [compute_overlap] reports: the frame-element field is the
    ["; "]-join of a list that is sorted, has no duplicate, and holds
    exactly the labels fetched for both frames, and the count is the length
    of that list; the same holds for the synset labels. *)
Theorem overlap_is_intersection `{Platform} (source_frame target_frame : string)
    (w w' : World) (r : Overlap.t) :
  compute_overlap source_frame target_frame w = (Ok r, w') ->
  exists w1 src tgt common_fe common_syn,
    get_frame_elements_and_synsets source_frame w = (Ok src, w1)
    /\ get_frame_elements_and_synsets target_frame w1 = (Ok tgt, w')
    /\ Overlap.source_frame r = source_frame
    /\ Overlap.target_frame r = target_frame
    /\ (StronglySorted String.le common_fe /\ NoDup common_fe
        /\ (forall x, x ∈ common_fe <-> x ∈ src.1 /\ x ∈ tgt.1)
        /\ Overlap.n_common_frame_elements r = Z.of_nat (length common_fe)
        /\ Overlap.common_frame_elements r = Str.join "; " common_fe)
    /\ (StronglySorted String.le common_syn /\ NoDup common_syn
        /\ (forall x, x ∈ common_syn <-> x ∈ src.2 /\ x ∈ tgt.2)
        /\ Overlap.n_common_synset_labels r = Z.of_nat (length common_syn)
        /\ Overlap.common_synset_labels r = Str.join "; " common_syn).
Proof.
  intros (src & w1 & tgt & Hs & Ht & ->)%compute_overlap_Ok.
  exists w1, src, tgt, (common src.1 tgt.1), (common src.2 tgt.2).
  split; [exact Hs|]. split; [exact Ht|].
  split; [reflexivity|]. split; [reflexivity|].
  split.
  - split; [apply common_ascending|]. split; [apply common_NoDup|].
    split; [intros x; apply elem_of_common|]. split; reflexivity.
  - split; [apply common_ascending|]. split; [apply common_NoDup|].
    split; [intros x; apply elem_of_common|]. split; reflexivity.
Qed.

Lemma overlap_is_intersection_witness :
  let r := Overlap.mk "urn:src" "urn:tgt" 1 1 "Agent" "path" in
  exists w1 src tgt common_fe common_syn,
    get_frame_elements_and_synsets (H := demo_platform) "urn:src"
      (world0 (P := demo_platform) tt) = (Ok src, w1)
    /\ get_frame_elements_and_synsets (H := demo_platform) "urn:tgt" w1
       = (Ok tgt, world0 (P := demo_platform) tt)
    /\ Overlap.source_frame r = "urn:src"
    /\ Overlap.target_frame r = "urn:tgt"
    /\ (StronglySorted String.le common_fe /\ NoDup common_fe
        /\ (forall x, x ∈ common_fe <-> x ∈ src.1 /\ x ∈ tgt.1)
        /\ Overlap.n_common_frame_elements r = Z.of_nat (length common_fe)
        /\ Overlap.common_frame_elements r = Str.join "; " common_fe)
    /\ (StronglySorted String.le common_syn /\ NoDup common_syn
        /\ (forall x, x ∈ common_syn <-> x ∈ src.2 /\ x ∈ tgt.2)
        /\ Overlap.n_common_synset_labels r = Z.of_nat (length common_syn)
        /\ Overlap.common_synset_labels r = Str.join "; " common_syn).
Proof.
  intros r.
  apply (overlap_is_intersection (H := demo_platform) "urn:src" "urn:tgt"
           (world0 (P := demo_platform) tt) (world0 (P := demo_platform) tt) r).
  vm_compute; reflexivity.
Defined.

(** X8.  Neither count of an overlap record is negative, and neither
    exceeds the number of labels fetched for the source frame or for the
    target frame. *)
Theorem overlap_counts_bounded `{Platform} (source_frame target_frame : string)
    (w w' : World) (r : Overlap.t) :
  compute_overlap source_frame target_frame w = (Ok r, w') ->
  exists w1 src tgt,
    get_frame_elements_and_synsets source_frame w = (Ok src, w1)
    /\ get_frame_elements_and_synsets target_frame w1 = (Ok tgt, w')
    /\ 0 <= Overlap.n_common_frame_elements r <= Z.of_nat (length src.1)
    /\ Overlap.n_common_frame_elements r <= Z.of_nat (length tgt.1)
    /\ 0 <= Overlap.n_common_synset_labels r <= Z.of_nat (length src.2)
    /\ Overlap.n_common_synset_labels r <= Z.of_nat (length tgt.2).
Proof.
  intros (src & w1 & tgt & Hs & Ht & ->)%compute_overlap_Ok.
  exists w1, src, tgt. split; [exact Hs|]. split; [exact Ht|].
  unfold overlap_record. cbn.
  pose proof (common_length_l src.1 tgt.1).
  pose proof (common_length_r src.1 tgt.1).
  pose proof (common_length_l src.2 tgt.2).
  pose proof (common_length_r src.2 tgt.2).
  lia.
Qed.

Lemma overlap_counts_bounded_witness :
  let r := Overlap.mk "urn:src" "urn:tgt" 1 1 "Agent" "path" in
  exists w1 src tgt,
    get_frame_elements_and_synsets (H := demo_platform) "urn:src"
      (world0 (P := demo_platform) tt) = (Ok src, w1)
    /\ get_frame_elements_and_synsets (H := demo_platform) "urn:tgt" w1
       = (Ok tgt, world0 (P := demo_platform) tt)
    /\ 0 <= Overlap.n_common_frame_elements r <= Z.of_nat (length src.1)
    /\ Overlap.n_common_frame_elements r <= Z.of_nat (length tgt.1)
    /\ 0 <= Overlap.n_common_synset_labels r <= Z.of_nat (length src.2)
    /\ Overlap.n_common_synset_labels r <= Z.of_nat (length tgt.2).
Proof.
  intros r.
  apply (overlap_counts_bounded (H := demo_platform) "urn:src" "urn:tgt"
           (world0 (P := demo_platform) tt) (world0 (P := demo_platform) tt) r).
  vm_compute; reflexivity.
Defined.

(** X9.  The overlap of a frame with itself, when both fetches return the
    same labels, is all of them: the counts are the numbers of labels and
    the fields are the joined label lists. *)
Theorem overlap_with_itself `{Platform} (frame : string) (w w1 w2 : World)
    (fe syn : list string) :
  get_frame_elements_and_synsets frame w = (Ok (fe, syn), w1) ->
  get_frame_elements_and_synsets frame w1 = (Ok (fe, syn), w2) ->
  compute_overlap frame frame w
  = (Ok (Overlap.mk frame frame (Z.of_nat (length fe)) (Z.of_nat (length syn))
                    (Str.join "; " fe) (Str.join "; " syn)), w2).
Proof.
  intros H1 H2. apply compute_overlap_Ok.
  exists (fe, syn), w1, (fe, syn). split; [exact H1|]. split; [exact H2|].
  apply get_labels_Ok in H1 as (bs & _ & [= Hfe Hsyn]).
  unfold overlap_record. cbn [fst snd].
  rewrite (common_self fe), (common_self syn); [reflexivity | | | |];
    subst; auto using sorted_ascending, sorted_elements_NoDup.
Qed.

Lemma overlap_with_itself_witness :
  compute_overlap (H := demo_platform) "urn:src" "urn:src"
    (world0 (P := demo_platform) tt)
  = (Ok (Overlap.mk "urn:src" "urn:src" 2 1 "Agent; Goal" "path"),
     world0 (P := demo_platform) tt).
Proof.
  apply (overlap_with_itself (H := demo_platform) "urn:src"
           (world0 (P := demo_platform) tt) (world0 (P := demo_platform) tt)
           (world0 (P := demo_platform) tt) ["Agent"; "Goal"] ["path"]).
  - vm_compute; reflexivity.
  - vm_compute; reflexivity.
Defined.

(** X10.  When the two frames share no frame-element label, the count is
    [0] and the field is the empty string (and likewise for the synset
    labels): an empty overlap is reported, not an error. *)
Theorem overlap_of_disjoint_labels `{Platform} (source_frame target_frame : string)
    (w w1 w2 : World) (src tgt : list string * list string) :
  get_frame_elements_and_synsets source_frame w = (Ok src, w1) ->
  get_frame_elements_and_synsets target_frame w1 = (Ok tgt, w2) ->
  exists r,
    compute_overlap source_frame target_frame w = (Ok r, w2)
    /\ ((forall x, x ∈ src.1 -> x ∉ tgt.1) ->
        Overlap.n_common_frame_elements r = 0
        /\ Overlap.common_frame_elements r = EmptyString)
    /\ ((forall x, x ∈ src.2 -> x ∉ tgt.2) ->
        Overlap.n_common_synset_labels r = 0
        /\ Overlap.common_synset_labels r = EmptyString).
Proof.
  intros Hs Ht. exists (overlap_record source_frame target_frame src tgt).
  split; [apply compute_overlap_Ok; eauto 6|].
  unfold overlap_record. cbn.
  split; intros Hd; rewrite (common_disjoint _ _ Hd); auto.
Qed.

Lemma overlap_of_disjoint_labels_witness :
  exists r,
    compute_overlap (H := demo_platform) "urn:src" "urn:other"
      (world0 (P := demo_platform) tt)
    = (Ok r, world0 (P := demo_platform) tt)
    /\ ((forall x, x ∈ ["Agent"; "Goal"] -> x ∉ @nil string) ->
        Overlap.n_common_frame_elements r = 0
        /\ Overlap.common_frame_elements r = EmptyString)
    /\ ((forall x, x ∈ ["path"] -> x ∉ @nil string) ->
        Overlap.n_common_synset_labels r = 0
        /\ Overlap.common_synset_labels r = EmptyString).
Proof.
  apply (overlap_of_disjoint_labels (H := demo_platform) "urn:src" "urn:other"
           (world0 (P := demo_platform) tt) (world0 (P := demo_platform) tt)
           (world0 (P := demo_platform) tt)
           (["Agent"; "Goal"], ["path"]) ([], [])).
  - vm_compute; reflexivity.
  - vm_compute; reflexivity.
Defined.

(** ** More on the mapping fetcher and on frame typing *)

Section FetchFacts.
Context `{Platform}.

Lemma get_mappings_Ok metaphor_iri w rows w' :
  get_mappings_roles_entailments metaphor_iri w = (Ok rows, w') ->
  exists bs,
    run_sparql_default (Query.mappings metaphor_iri) w
    = (Ok (Some (Select bs)), w')
    /\ rows = row_of_binding <$> bs.
Proof.
  unfold get_mappings_roles_entailments.
  intros (data & w1 & Hrun & Hk)%bind_Ok.
  apply bind_Ok in Hk as (bs & w2 & [Hb ->]%lift_Ok & [-> ->]%ret_Ok).
  destruct data as [[bs'|b]|]; simpl in Hb; try discriminate.
  injection Hb as ->. eauto.
Qed.

Lemma collect_candidates_length frame_uri bs :
  (length (elements (collect_candidates frame_uri bs)) <= length bs)%nat.
Proof.
  rewrite <- (length_fmap (fun b => value_or b "candidate" frame_uri) bs).
  apply submseteq_length, NoDup_submseteq; [apply NoDup_elements|].
  intros x Hx%elem_of_elements%elem_of_collect_candidates.
  apply list_elem_of_fmap. apply Exists_exists in Hx as (b & Hb & <-).
  exists b. split; [reflexivity | exact Hb].
Qed.

End FetchFacts.

(** X11.  [get_mappings_roles_entailments] returns one row per binding of
    the answer, in the order of the answer and without dropping repeated
    bindings; each column is the value of its variable ([?src] for
    [source_frame], [?tgt] for [target_frame], ...), or null when the
    binding leaves the variable without a value. *)
Theorem mappings_one_row_per_binding `{Platform} (metaphor_iri : string)
    (w w' : World) (rows : list MapRow.t) :
  get_mappings_roles_entailments metaphor_iri w = (Ok rows, w') ->
  exists bs,
    run_sparql_default (Query.mappings metaphor_iri) w
    = (Ok (Some (Select bs)), w')
    /\ length rows = length bs
    /\ forall (i : nat) (b : Binding), bs !! i = Some b ->
         exists r, rows !! i = Some r
           /\ MapRow.metaphor r = value_of b "metaphor"
           /\ MapRow.source_frame r = value_of b "src"
           /\ MapRow.target_frame r = value_of b "tgt"
           /\ MapRow.source_role r = value_of b "srcRole"
           /\ MapRow.target_role r = value_of b "tgtRole"
           /\ MapRow.entailment r = value_of b "ent"
           /\ MapRow.example r = value_of b "ex".
Proof.
  intros (bs & Hrun & ->)%get_mappings_Ok. exists bs.
  split; [exact Hrun|]. split; [apply length_fmap|].
  intros i b Hb. exists (row_of_binding b).
  rewrite list_lookup_fmap, Hb. cbn. repeat split; reflexivity.
Qed.

Lemma mappings_one_row_per_binding_witness :
  exists bs,
    run_sparql_default (H := demo_platform) (Query.mappings "urn:m1")
      (world0 (P := demo_platform) tt)
    = (Ok (Some (Select bs)), world0 (P := demo_platform) tt)
    /\ length [MapRow.mk (Some "urn:m1") (Some "urn:src") (Some "urn:tgt")
                         None None None None] = length bs
    /\ forall (i : nat) (b : Binding), bs !! i = Some b ->
         exists r,
           [MapRow.mk (Some "urn:m1") (Some "urn:src") (Some "urn:tgt")
                      None None None None] !! i = Some r
           /\ MapRow.metaphor r = value_of b "metaphor"
           /\ MapRow.source_frame r = value_of b "src"
           /\ MapRow.target_frame r = value_of b "tgt"
           /\ MapRow.source_role r = value_of b "srcRole"
           /\ MapRow.target_role r = value_of b "tgtRole"
           /\ MapRow.entailment r = value_of b "ent"
           /\ MapRow.example r = value_of b "ex".
Proof.
  apply (mappings_one_row_per_binding (H := demo_platform) "urn:m1"
           (world0 (P := demo_platform) tt) (world0 (P := demo_platform) tt)).
  vm_compute; reflexivity.
Defined.

(** X12.  The three functions that read a SELECT result index the answer
    with ["results"]: when the endpoint answers their query with a boolean
    result instead, each of them ends with [KeyError("results")], in the
    world the request left. *)
Theorem boolean_answer_is_a_key_error `{Platform} (iri : string)
    (w w' : World) (b : bool) :
  (run_sparql_default (Query.mappings iri) w = (Ok (Some (Ask b)), w') ->
   get_mappings_roles_entailments iri w = (Raise (KeyError "results"), w'))
  /\ (run_sparql_default (Query.candidates iri) w = (Ok (Some (Ask b)), w') ->
      expand_equivalents_and_typing iri w = (Raise (KeyError "results"), w'))
  /\ (run_sparql_default (Query.labels iri) w = (Ok (Some (Ask b)), w') ->
      get_frame_elements_and_synsets iri w = (Raise (KeyError "results"), w')).
Proof.
  split; [|split]; intros Hrun.
  - unfold get_mappings_roles_entailments.
    now rewrite (bind_run _ _ _ _ _ Hrun).
  - unfold expand_equivalents_and_typing.
    now rewrite (bind_run _ _ _ _ _ Hrun).
  - unfold get_frame_elements_and_synsets.
    now rewrite (bind_run _ _ _ _ _ Hrun).
Qed.

Lemma boolean_answer_is_a_key_error_witness :
  get_mappings_roles_entailments
    (H := oracle_platform (fun _ => inr (Ask true))) "urn:m"
    (mkWorld (H := oracle_platform _) tt [] ∅)
  = (Raise (KeyError "results"), mkWorld (H := oracle_platform _) tt [] ∅).
Proof.
  apply (proj1 (boolean_answer_is_a_key_error
                  (H := oracle_platform (fun _ => inr (Ask true))) "urn:m"
                  (mkWorld (H := oracle_platform _) tt [] ∅)
                  (mkWorld (H := oracle_platform _) tt [] ∅) true)).
  vm_compute; reflexivity.
Defined.

(** X13.  The candidates of a typing record are exactly the [?candidate]
    values of the answer, the seed standing for a binding without value;
    the three lists of the record have no repeated frame, and there are no
    more candidates than bindings. *)
Theorem typing_candidates_exact `{Platform} (frame_uri : string)
    (w w' : World) (info : TypingInfo.t) :
  expand_equivalents_and_typing frame_uri w = (Ok info, w') ->
  exists bs w1,
    run_sparql_default (Query.candidates frame_uri) w
    = (Ok (Some (Select bs)), w1)
    /\ (forall c, c ∈ TypingInfo.candidates info
          <-> Exists (fun b => value_or b "candidate" frame_uri = c) bs)
    /\ (length (TypingInfo.candidates info) <= length bs)%nat
    /\ NoDup (TypingInfo.candidates info)
    /\ NoDup (TypingInfo.as_source info)
    /\ NoDup (TypingInfo.as_target info).
Proof.
  intros (bs & w1 & src & tgt & Hrun & _ & ->)%expand_Ok. cbn.
  exists bs, w1. split; [exact Hrun|]. split.
  - intros c. rewrite elem_of_elements. apply elem_of_collect_candidates.
  - split; [apply collect_candidates_length|].
    repeat split; apply NoDup_elements.
Qed.

Lemma typing_candidates_exact_witness :
  let info := TypingInfo.mk "urn:src" ["urn:src"; "urn:tgt"] ["urn:src"] ["urn:tgt"] in
  exists bs w1,
    run_sparql_default (H := demo_platform) (Query.candidates "urn:src")
      (world0 (P := demo_platform) tt)
    = (Ok (Some (Select bs)), w1)
    /\ (forall c, c ∈ TypingInfo.candidates info
          <-> Exists (fun b => value_or b "candidate" "urn:src" = c) bs)
    /\ (length (TypingInfo.candidates info) <= length bs)%nat
    /\ NoDup (TypingInfo.candidates info)
    /\ NoDup (TypingInfo.as_source info)
    /\ NoDup (TypingInfo.as_target info).
Proof.
  intros info.
  apply (typing_candidates_exact (H := demo_platform) "urn:src"
           (world0 (P := demo_platform) tt) (world0 (P := demo_platform) tt) info).
  vm_compute; reflexivity.
Defined.

(** X14.  An answer without any binding ends the typing of a frame at
    once: no existence check is sent, and the record has the seed and three
    empty lists. *)
Theorem typing_of_empty_answer `{Platform} (frame_uri : string) (w w' : World) :
  run_sparql_default (Query.candidates frame_uri) w = (Ok (Some (Select [])), w') ->
  expand_equivalents_and_typing frame_uri w
  = (Ok (TypingInfo.mk frame_uri [] [] []), w').
Proof.
  intros Hrun. unfold expand_equivalents_and_typing.
  rewrite (bind_run _ _ _ _ _ Hrun). cbn [bindings_of].
  unfold bind, lift, collect_candidates. cbn [fold_left].
  rewrite elements_empty. reflexivity.
Qed.

Lemma typing_of_empty_answer_witness :
  expand_equivalents_and_typing (H := silent_platform) "urn:f"
    (world0 (P := silent_platform) tt)
  = (Ok (TypingInfo.mk "urn:f" [] [] []), world0 (P := silent_platform) tt).
Proof.
  apply (typing_of_empty_answer (H := silent_platform)).
  vm_compute; reflexivity.
Defined.

(** ** Frame typing on a stateless endpoint *)

Section StatelessEndpoint.
Variable answer : string -> Exn + Response.

Lemma run_default_oracle query res (w : @World (oracle_platform answer)) :
  answer query = inr res ->
  run_sparql_default (H := oracle_platform answer) query w = (Ok (Some res), w).
Proof.
  intros Ha. unfold run_sparql_default, run_sparql.
  change (Z.to_nat 3) with 3%nat. rewrite loop_unfold.
  cbn [send oracle_platform]. rewrite Ha. now destruct w.
Qed.

Lemma type_candidates_oracle cs :
  forall (src tgt : pyset) (w : @World (oracle_platform answer)),
  (forall c, c ∈ cs ->
     exists b1 b2, answer (Query.is_source c) = inr (Ask b1)
                   /\ answer (Query.is_target c) = inr (Ask b2)) ->
  exists s t,
    type_candidates (H := oracle_platform answer) cs src tgt w = (Ok (s, t), w)
    /\ (forall c, c ∈ s
          <-> c ∈ src \/ (c ∈ cs /\ answer (Query.is_source c) = inr (Ask true)))
    /\ (forall c, c ∈ t
          <-> c ∈ tgt \/ (c ∈ cs /\ answer (Query.is_target c) = inr (Ask true))).
Proof.
  induction cs as [|c0 cs IH]; intros src tgt w Hans.
  - exists src, tgt. split; [reflexivity|].
    split; intros c; rewrite elem_of_nil; tauto.
  - destruct (Hans c0) as (b1 & b2 & H1 & H2); [now left|].
    destruct (IH (if b1 then {[c0]} ∪ src else src)
                 (if b2 then {[c0]} ∪ tgt else tgt) w) as (s & t & Hrun & Hs & Ht).
    { intros c Hc. apply Hans. now right. }
    exists s, t. split.
    + cbn [type_candidates].
      rewrite (bind_run _ _ _ _ _ (run_default_oracle _ _ w H1)).
      unfold bind at 1. unfold lift at 1. cbn [boolean_of].
      rewrite (bind_run _ _ _ _ _ (run_default_oracle _ _ w H2)).
      unfold bind at 1. unfold lift at 1. cbn [boolean_of].
      exact Hrun.
    + split; intros c.
      * rewrite Hs, elem_of_cons. destruct b1.
        -- rewrite elem_of_union, elem_of_singleton. split.
           ++ intros [[->|?]|[? ?]]; auto.
           ++ intros [?|[[->|?] ?]]; auto.
        -- split.
           ++ intros [?|[? ?]]; auto.
           ++ intros [?|[[->|?] ?]]; [auto | congruence | auto].
      * rewrite Ht, elem_of_cons. destruct b2.
        -- rewrite elem_of_union, elem_of_singleton. split.
           ++ intros [[->|?]|[? ?]]; auto.
           ++ intros [?|[[->|?] ?]]; auto.
        -- split.
           ++ intros [?|[? ?]]; auto.
           ++ intros [?|[[->|?] ?]]; [auto | congruence | auto].
Qed.

End StatelessEndpoint.

(** X15.  On an endpoint that answers every query by a fixed function,
    when the candidate query is answered by bindings and every existence
    check on a candidate by a boolean, [expand_equivalents_and_typing]
    returns a record whose [as_source] holds exactly the candidates whose
    source check answered true, and whose [as_target] holds exactly those
    whose target check answered true. *)
Theorem typing_follows_the_checks (answer : string -> Exn + Response)
    (frame_uri : string) (bs : list Binding)
    (w : @World (oracle_platform answer)) :
  answer (Query.candidates frame_uri) = inr (Select bs) ->
  (forall c, c ∈ collect_candidates frame_uri bs ->
     exists b1 b2, answer (Query.is_source c) = inr (Ask b1)
                   /\ answer (Query.is_target c) = inr (Ask b2)) ->
  exists info,
    expand_equivalents_and_typing (H := oracle_platform answer) frame_uri w
    = (Ok info, w)
    /\ (forall c, c ∈ TypingInfo.as_source info
          <-> c ∈ TypingInfo.candidates info
              /\ answer (Query.is_source c) = inr (Ask true))
    /\ (forall c, c ∈ TypingInfo.as_target info
          <-> c ∈ TypingInfo.candidates info
              /\ answer (Query.is_target c) = inr (Ask true)).
Proof.
  intros Hcand Hask.
  destruct (type_candidates_oracle answer
              (elements (collect_candidates frame_uri bs)) ∅ ∅ w)
    as (s & t & Hrun & Hs & Ht).
  { intros c Hc%elem_of_elements. now apply Hask. }
  eexists. split.
  - unfold expand_equivalents_and_typing.
    rewrite (bind_run _ _ _ _ _ (run_default_oracle _ _ _ w Hcand)).
    unfold bind at 1. unfold lift at 1. cbn [bindings_of].
    rewrite (bind_run _ _ _ _ _ Hrun). reflexivity.
  - cbn. split; intros c; rewrite elem_of_elements.
    + rewrite Hs, elem_of_empty. tauto.
    + rewrite Ht, elem_of_empty. tauto.
Qed.

Lemma typing_follows_the_checks_witness :
  exists info,
    expand_equivalents_and_typing (H := demo_platform) "urn:src"
      (world0 (P := demo_platform) tt)
    = (Ok info, world0 (P := demo_platform) tt)
    /\ (forall c, c ∈ TypingInfo.as_source info
          <-> c ∈ TypingInfo.candidates info
              /\ demo_answer (Query.is_source c) = inr (Ask true))
    /\ (forall c, c ∈ TypingInfo.as_target info
          <-> c ∈ TypingInfo.candidates info
              /\ demo_answer (Query.is_target c) = inr (Ask true)).
Proof.
  apply (typing_follows_the_checks demo_answer "urn:src"
           [bound "candidate" "urn:src"; bound "candidate" "urn:tgt"]
           (world0 (P := demo_platform) tt)).
  - vm_compute; reflexivity.
  - intros c Hc.
    assert (Hin : c ∈ ["urn:src"; "urn:tgt"]).
    { apply elem_of_collect_candidates in Hc.
      apply Exists_cons in Hc as [<-|Hc]; [now left|].
      apply Exists_cons in Hc as [<-|Hc]; [right; now left|].
      now apply Exists_nil in Hc. }
    apply elem_of_cons in Hin as [->|Hin].
    + exists true, false. split; vm_compute; reflexivity.
    + apply list_elem_of_singleton in Hin as ->.
      exists false, true. split; vm_compute; reflexivity.
Defined.

(** ** What the stages do to the files *)

Section FileFrame.
Context `{Platform}.

Lemma bind_files {A B} (c : M A) (k : A -> M B) :
  (forall w, files (c w).2 = files w) ->
  (forall a w, files (k a w).2 = files w) ->
  forall w, files (bind c k w).2 = files w.
Proof.
  intros Hc Hk w. unfold bind. specialize (Hc w).
  destruct (c w) as [[a|e] w1]; cbn [snd] in *; [|exact Hc].
  now rewrite Hk.
Qed.

Lemma lift_files {A} (r : Result A) w : files (lift r w).2 = files w.
Proof. reflexivity. Qed.

Lemma ret_files {A} (a : A) w : files (ret a w).2 = files w.
Proof. reflexivity. Qed.

Lemma run_default_files query w :
  files (run_sparql_default query w).2 = files w.
Proof.
  unfold run_sparql_default, run_sparql.
  destruct (loop_trace query FRAMESTER_SPARQL 3 default_sleep_sec
              (Z.to_nat 3) 0 w) as (k & _ & _ & _ & Hf).
  exact Hf.
Qed.

Lemma get_mappings_files m w :
  files (get_mappings_roles_entailments m w).2 = files w.
Proof.
  unfold get_mappings_roles_entailments.
  apply bind_files; [apply run_default_files|]. intros data w1.
  apply bind_files; [apply lift_files|]. intros bs w2. apply ret_files.
Qed.

Lemma type_candidates_files cs : forall src tgt w,
  files (type_candidates cs src tgt w).2 = files w.
Proof.
  induction cs as [|c cs IH]; intros src tgt w; [reflexivity|].
  cbn [type_candidates].
  apply bind_files; [apply run_default_files|]. intros d2 w1.
  apply bind_files; [apply lift_files|]. intros is_src w2.
  apply bind_files; [apply run_default_files|]. intros d3 w3.
  apply bind_files; [apply lift_files|]. intros is_tgt w4. apply IH.
Qed.

Lemma expand_files f w :
  files (expand_equivalents_and_typing f w).2 = files w.
Proof.
  unfold expand_equivalents_and_typing.
  apply bind_files; [apply run_default_files|]. intros data w1.
  apply bind_files; [apply lift_files|]. intros bs w2.
  apply bind_files; [apply type_candidates_files|]. intros [src tgt] w3.
  apply ret_files.
Qed.

Lemma get_labels_files f w :
  files (get_frame_elements_and_synsets f w).2 = files w.
Proof.
  unfold get_frame_elements_and_synsets.
  apply bind_files; [apply run_default_files|]. intros data w1.
  apply bind_files; [apply lift_files|]. intros bs w2.
  destruct (collect_labels bs). apply ret_files.
Qed.

Lemma compute_overlap_files s t w :
  files (compute_overlap s t w).2 = files w.
Proof.
  unfold compute_overlap.
  apply bind_files; [apply get_labels_files|]. intros src w1.
  apply bind_files; [apply get_labels_files|]. intros tgt w2. apply ret_files.
Qed.

Lemma fetch_mappings_files ms : forall acc w,
  files (fetch_mappings ms acc w).2 = files w.
Proof.
  induction ms as [|m ms IH]; intros acc w; [reflexivity|].
  cbn [fetch_mappings].
  apply bind_files; [apply get_mappings_files|]. intros rows w1.
  destruct rows; apply IH.
Qed.

Lemma expand_frames_files fs : forall acc w,
  files (expand_frames fs acc w).2 = files w.
Proof.
  induction fs as [|f fs IH]; intros acc w; [reflexivity|].
  cbn [expand_frames].
  apply bind_files; [apply expand_files|]. intros info w1. apply IH.
Qed.

Lemma overlap_pairs_files ps : forall acc w,
  files (overlap_pairs ps acc w).2 = files w.
Proof.
  induction ps as [|[s t] ps IH]; intros acc w; [reflexivity|].
  cbn [overlap_pairs].
  apply bind_files; [apply compute_overlap_files|]. intros r w1. apply IH.
Qed.

End FileFrame.

(** ** More on the mapping stage *)

Section MappingMore.
Context `{Platform}.

Lemma fetch_mappings_origin ms : forall w out w',
  fetch_mappings ms [] w = (Ok out, w') ->
  forall r, r ∈ out ->
    exists pre m post acc w1 rows w2,
      ms = pre ++ m :: post
      /\ fetch_mappings pre [] w = (Ok acc, w1)
      /\ get_mappings_roles_entailments m w1 = (Ok rows, w2)
      /\ ((rows = [] /\ r = placeholder m) \/ r ∈ rows).
Proof.
  induction ms as [|x l IH] using rev_ind; intros w out w' Hfetch r Hr.
  - apply ret_Ok in Hfetch as [-> _]. now apply elem_of_nil in Hr.
  - apply fetch_mappings_at in Hfetch
      as (acc & w1 & rows & w2 & Hpre & Hget & Hpost).
    apply ret_Ok in Hpost as [-> _].
    apply elem_of_app in Hr as [Hr|Hr].
    + destruct (IH _ _ _ Hpre r Hr)
        as (pre & m & post & acc0 & u1 & rs & u2 & -> & Hp & Hg & Hcase).
      exists pre, m, (post ++ [x]), acc0, u1, rs, u2.
      split; [now rewrite <- app_assoc|]. auto.
    + exists l, x, [], acc, w1, rows, w2.
      split; [reflexivity|]. split; [exact Hpre|]. split; [exact Hget|].
      destruct rows as [|r0 rows].
      * left. apply list_elem_of_singleton in Hr. auto.
      * now right.
Qed.

Lemma mapping_stage_world selected w df w' :
  mapping_stage selected w = (Ok df, w') ->
  exists rows w1,
    fetch_mappings selected [] w = (Ok rows, w1)
    /\ df = drop_duplicates (data_frame rows)
    /\ w' = mkWorld (net w1) (slept w1)
              (<["metaphor_mappings_roles_entailments.csv" := csv_of df]> (files w)).
Proof.
  unfold mapping_stage. intros (rows & w1 & Hfetch & Hk)%bind_Ok.
  apply bind_Ok in Hk as (u & w2 & Hcsv & [Hdf Hw]%ret_Ok).
  exists rows, w1. split; [exact Hfetch|]. split; [exact Hdf|].
  pose proof (fetch_mappings_files selected [] w) as Hf.
  rewrite Hfetch in Hf. cbn [snd] in Hf.
  unfold to_csv in Hcsv. injection Hcsv as _ Hw2.
  rewrite Hw, <- Hw2, Hdf, Hf. reflexivity.
Qed.

Lemma fetch_mappings_nonempty m ms w out w' :
  fetch_mappings (m :: ms) [] w = (Ok out, w') -> out <> [].
Proof.
  intros Hfetch. apply fetch_mappings_rows in Hfetch as [_ Hms].
  destruct (Hms m) as (w1 & w2 & rows & _ & Hnone & Hsome); [now left|].
  intros ->. destruct rows as [|r rows].
  - specialize (Hnone eq_refl). now apply elem_of_nil in Hnone.
  - specialize (Hsome r ltac:(now left)). now apply elem_of_nil in Hsome.
Qed.

Lemma dedup_go_nonempty {R} `{EqDecision R} (l : list R) :
  l <> [] -> dedup_go [] l <> [].
Proof.
  destruct l as [|x l]; [congruence|]. intros _. simpl.
  destruct (decide (x ∈ [])) as [Hin|_]; [now apply elem_of_nil in Hin|].
  discriminate.
Qed.

End MappingMore.

(** X16.  Every row of the mapping table is accounted for by the run that
    built it: the rows are pairwise different, and each one comes from the
    iteration of the loop for some metaphor [m] of the configured list,
    which fetched [m] in the world reached after the metaphors before it;
    the row is the placeholder of [m] when that fetch returned no row, and
    one of the rows it returned otherwise. *)
Theorem mapping_table_sound `{Platform} (selected : list string)
    (w w' : World) (df : DataFrame MapRow.t) :
  mapping_stage selected w = (Ok df, w') ->
  NoDup (records df)
  /\ forall r, r ∈ records df ->
       exists pre m post acc w1 rows w2,
         selected = pre ++ m :: post
         /\ fetch_mappings pre [] w = (Ok acc, w1)
         /\ get_mappings_roles_entailments m w1 = (Ok rows, w2)
         /\ ((rows = [] /\ r = placeholder m) \/ r ∈ rows).
Proof.
  intros (rows & w1 & Hfetch & -> & _)%mapping_stage_world. cbn. split.
  - apply NoDup_dedup_go.
  - intros r [Hr _]%elem_of_dedup_go.
    exact (fetch_mappings_origin _ _ _ _ Hfetch r Hr).
Qed.

Lemma mapping_table_sound_witness :
  let answer1 := <["src" := {[ "value" := "urn:src" ]}]> (bound "metaphor" "urn:m1") in
  let row1 := MapRow.mk (Some "urn:m1") (Some "urn:src") None None None None None in
  let df := mkDataFrame (keys (R := MapRow.t)) [row1; placeholder "urn:m2"] in
  let w := world0 (P := replay_platform) [inr (Select [answer1]); inr (Select [])] in
  NoDup (records df)
  /\ forall r, r ∈ records df ->
       exists pre m post acc w1 rows w2,
         ["urn:m1"; "urn:m2"] = pre ++ m :: post
         /\ fetch_mappings (H := replay_platform) pre [] w = (Ok acc, w1)
         /\ get_mappings_roles_entailments (H := replay_platform) m w1
            = (Ok rows, w2)
         /\ ((rows = [] /\ r = placeholder m) \/ r ∈ rows).
Proof.
  intros answer1 row1 df w.
  apply (mapping_table_sound (H := replay_platform) ["urn:m1"; "urn:m2"] w
           (mkWorld (H := replay_platform) [] []
              {[ "metaphor_mappings_roles_entailments.csv" := csv_of df ]}) df).
  vm_compute; reflexivity.
Defined.

(** X17.  With at least one configured metaphor, a completed mapping stage
    leaves a table that has at least one row and the seven columns, and the
    mapping file holds that header and one line of cells per row. *)
Theorem mapping_table_header `{Platform} (selected : list string)
    (w w' : World) (df : DataFrame MapRow.t) :
  selected <> [] ->
  mapping_stage selected w = (Ok df, w') ->
  records df <> []
  /\ columns df = ["metaphor"; "source_frame"; "target_frame"; "source_role";
                   "target_role"; "entailment"; "example"]
  /\ files w' !! "metaphor_mappings_roles_entailments.csv"
     = Some (mkCsv (columns df) (cells <$> records df)).
Proof.
  intros Hne (rows & w1 & Hfetch & -> & ->)%mapping_stage_world.
  destruct selected as [|m ms]; [congruence|].
  pose proof (fetch_mappings_nonempty _ _ _ _ _ Hfetch) as Hrows.
  split; [cbn; now apply dedup_go_nonempty|]. split.
  - cbn. now destruct rows.
  - cbn [files]. now rewrite lookup_insert_eq.
Qed.

Lemma mapping_table_header_witness :
  let df := mkDataFrame (keys (R := MapRow.t)) [placeholder "urn:none"] in
  records df <> []
  /\ columns df = ["metaphor"; "source_frame"; "target_frame"; "source_role";
                   "target_role"; "entailment"; "example"]
  /\ files (mkWorld (H := demo_platform) tt []
              {[ "metaphor_mappings_roles_entailments.csv" := csv_of df ]})
       !! "metaphor_mappings_roles_entailments.csv"
     = Some (mkCsv (columns df) (cells <$> records df)).
Proof.
  intros df.
  apply (mapping_table_header (H := demo_platform) ["urn:none"]
           (world0 (P := demo_platform) tt)).
  - discriminate.
  - vm_compute; reflexivity.
Defined.

(** ** The whole run *)

Section MainFacts.
Context `{Platform}.

Lemma getitem_Ok df name col :
  getitem df name = Ok col ->
  name ∈ columns df
  /\ exists field, MapRow.get name = Some field /\ col = field <$> records df.
Proof.
  unfold getitem. destruct (decide (name ∈ columns df)) as [Hin|]; [|discriminate].
  destruct (MapRow.get name) as [field|]; [|discriminate].
  intros [= <-]. eauto.
Qed.

Lemma dropna_pairs_Ok df ps :
  dropna_pairs df = Ok ps -> ps = omap frame_pair (records df).
Proof.
  unfold dropna_pairs. repeat case_decide; congruence.
Qed.

Lemma expand_frames_seeds fs : forall acc w out w',
  expand_frames fs acc w = (Ok out, w') ->
  exists rows, out = acc ++ rows /\ TypingRow.seed_frame <$> rows = fs.
Proof.
  induction fs as [|f fs IH]; intros acc w out w'.
  - intros [-> ->]%ret_Ok. exists []. now rewrite app_nil_r.
  - cbn [expand_frames]. intros (info & w1 & Hexp & Hrec)%bind_Ok.
    apply IH in Hrec as (rows & -> & Hseeds).
    apply expand_Ok in Hexp as (bs & u & src & tgt & _ & _ & ->).
    exists (typing_row (TypingInfo.mk f (elements (collect_candidates f bs))
                          (elements src) (elements tgt)) :: rows).
    split; [now rewrite <- app_assoc|]. cbn. now rewrite Hseeds.
Qed.


Lemma main_Ok selected w w' :
  main selected w = (Ok tt, w') ->
  exists df_map w1 typing_rows w2 overlap_rows w3,
    mapping_stage selected w = (Ok df_map, w1)
    /\ "source_frame" ∈ columns df_map
    /\ expand_frames
         (Str.sorted (elements (list_to_set
            (dropna (MapRow.source_frame <$> records df_map)
             ++ dropna (MapRow.target_frame <$> records df_map)) : pyset)))
         [] w1 = (Ok typing_rows, w2)
    /\ overlap_pairs (omap frame_pair (records df_map)) []
         (mkWorld (net w2) (slept w2)
            (<["frame_typing_expanded.csv" := csv_of (data_frame typing_rows)]>
               (files w2)))
       = (Ok overlap_rows, w3)
    /\ w' = mkWorld (net w3) (slept w3)
              (<["similarity_overlap.csv" :=
                   csv_of (drop_duplicates (data_frame overlap_rows))]> (files w3)).
Proof.
  unfold main. intros (df_map & w1 & Hmap & Hk)%bind_Ok.
  apply bind_Ok in Hk as (srcs & u1 & [Hsrc ->]%lift_Ok & Hk).
  apply bind_Ok in Hk as (tgts & u2 & [Htgt ->]%lift_Ok & Hk).
  apply bind_Ok in Hk as (typing_rows & w2 & Hexp & Hk).
  apply bind_Ok in Hk as (x1 & u3 & Hcsv1 & Hk).
  apply bind_Ok in Hk as (pairs & u4 & [Hpairs ->]%lift_Ok & Hk).
  apply bind_Ok in Hk as (overlap_rows & w3 & Hov & Hk).
  apply bind_Ok in Hk as (x2 & u5 & Hcsv2 & [_ ->]%ret_Ok).
  apply getitem_Ok in Hsrc as (Hcol & f1 & Hf1 & ->).
  apply getitem_Ok in Htgt as (_ & f2 & Hf2 & ->).
  injection Hf1 as <-. injection Hf2 as <-.
  apply dropna_pairs_Ok in Hpairs as ->.
  unfold to_csv in Hcsv1, Hcsv2.
  injection Hcsv1 as _ <-. injection Hcsv2 as _ <-.
  exists df_map, w1, typing_rows, w2, overlap_rows, w3. auto.
Qed.

Lemma elem_of_dropna {A} (field : A -> option string) (l : list A) x :
  x ∈ dropna (field <$> l) <-> exists r, r ∈ l /\ field r = Some x.
Proof.
  unfold dropna. rewrite list_elem_of_omap. split.
  - intros (o & Ho & Hid). apply list_elem_of_fmap in Ho as (r & -> & Hr).
    exists r. auto.
  - intros (r & Hr & Hf). exists (field r). split; [|exact Hf].
    apply list_elem_of_fmap. eauto.
Qed.


End MainFacts.

Section OtherFiles.
Context `{Platform}.
Variable name : string.

Lemma bind_keeps {A B} (c : M A) (k : A -> M B) :
  (forall w, files (c w).2 !! name = files w !! name) ->
  (forall a w, files (k a w).2 !! name = files w !! name) ->
  forall w, files (bind c k w).2 !! name = files w !! name.
Proof.
  intros Hc Hk w. unfold bind. specialize (Hc w).
  destruct (c w) as [[a|e] w1]; cbn [snd] in *; [|exact Hc].
  now rewrite Hk.
Qed.

Lemma to_csv_keeps {R} `{RowLike R} (file : string) (df : DataFrame R) w :
  file <> name -> files (to_csv file df w).2 !! name = files w !! name.
Proof. intros Hne. cbn. now rewrite lookup_insert_ne. Qed.

Lemma main_keeps selected w :
  name <> "metaphor_mappings_roles_entailments.csv" ->
  name <> "frame_typing_expanded.csv" ->
  name <> "similarity_overlap.csv" ->
  files (main selected w).2 !! name = files w !! name.
Proof.
  intros N1 N2 N3. unfold main, mapping_stage.
  apply bind_keeps.
  - apply bind_keeps; [intros u; now rewrite fetch_mappings_files|].
    intros rows u. apply bind_keeps; [intros v; now apply to_csv_keeps|].
    reflexivity.
  - intros df_map u. apply bind_keeps; [reflexivity|]. intros srcs u1.
    apply bind_keeps; [reflexivity|]. intros tgts u2.
    apply bind_keeps; [intros v; now rewrite expand_frames_files|].
    intros typing_rows u3.
    apply bind_keeps; [intros v; now apply to_csv_keeps|]. intros x1 u4.
    apply bind_keeps; [reflexivity|]. intros pairs u5.
    apply bind_keeps; [intros v; now rewrite overlap_pairs_files|].
    intros overlap_rows u6.
    apply bind_keeps; [intros v; now apply to_csv_keeps|]. reflexivity.
Qed.

End OtherFiles.

(** X18.  However a run of [main] ends, the only files it may have written
    are its three tables: every other file is as it was. *)
Theorem main_writes_only_its_tables `{Platform} (selected : list string)
    (w : World) (name : string) :
  name ∉ ["metaphor_mappings_roles_entailments.csv";
          "frame_typing_expanded.csv"; "similarity_overlap.csv"] ->
  files (main selected w).2 !! name = files w !! name.
Proof.
  intros Hn. apply main_keeps; intros ->; apply Hn.
  - now left.
  - right. now left.
  - right. right. now left.
Qed.

Lemma main_writes_only_its_tables_witness :
  files (main (H := demo_platform) ["urn:m1"; "urn:none"]
           (mkWorld (H := demo_platform) tt [] {[ "notes.txt" := mkCsv [] [] ]})).2
    !! "notes.txt"
  = Some (mkCsv [] []).
Proof.
  rewrite (main_writes_only_its_tables (H := demo_platform)).
  - reflexivity.
  - intros Hin. repeat (apply elem_of_cons in Hin as [Hin|Hin]; [discriminate|]).
    now apply elem_of_nil in Hin.
Defined.

(** X19.  After a completed run the typing file holds one line per frame of
    the mapping table: its seed frames are in ascending order, without
    repetition, and are exactly the frames that occur as source or as
    target of some mapping row. *)
Theorem typing_table_seeds `{Platform} (selected : list string) (w w' : World) :
  main selected w = (Ok tt, w') ->
  exists df_map w1 typing_rows,
    mapping_stage selected w = (Ok df_map, w1)
    /\ files w' !! "frame_typing_expanded.csv"
       = Some (csv_of (data_frame typing_rows))
    /\ StronglySorted String.le (TypingRow.seed_frame <$> typing_rows)
    /\ NoDup (TypingRow.seed_frame <$> typing_rows)
    /\ forall f, f ∈ TypingRow.seed_frame <$> typing_rows
         <-> exists r, r ∈ records df_map
               /\ (MapRow.source_frame r = Some f \/ MapRow.target_frame r = Some f).
Proof.
  intros (df_map & w1 & typing_rows & w2 & overlap_rows & w3
          & Hmap & _ & Hexp & Hov & ->)%main_Ok.
  exists df_map, w1, typing_rows. split; [exact Hmap|].
  pose proof (overlap_pairs_files (omap frame_pair (records df_map)) []
    (mkWorld (net w2) (slept w2)
       (<["frame_typing_expanded.csv" := csv_of (data_frame typing_rows)]>
          (files w2)))) as Hf3.
  rewrite Hov in Hf3. cbn [snd files] in Hf3.
  apply expand_frames_seeds in Hexp as (rows & Hrows & Hseeds).
  cbn [app] in Hrows. subst rows. rewrite Hseeds.
  split; [|split; [|split]].
  - cbn [files]. rewrite Hf3, lookup_insert_ne by discriminate.
    now rewrite lookup_insert_eq.
  - apply sorted_ascending.
  - apply sorted_elements_NoDup.
  - intros f. rewrite elem_of_sorted_elements, elem_of_list_to_set, elem_of_app.
    rewrite !elem_of_dropna. split.
    + intros [(r & Hr & Hs)|(r & Hr & Ht)]; exists r; auto.
    + intros (r & Hr & [Hs|Ht]); [left | right]; eauto.
Qed.

Lemma typing_table_seeds_witness :
  exists df_map w1 typing_rows,
    mapping_stage (H := demo_platform) ["urn:m1"; "urn:none"]
      (world0 (P := demo_platform) tt) = (Ok df_map, w1)
    /\ files (main (H := demo_platform) ["urn:m1"; "urn:none"]
                (world0 (P := demo_platform) tt)).2
         !! "frame_typing_expanded.csv"
       = Some (csv_of (data_frame typing_rows))
    /\ StronglySorted String.le (TypingRow.seed_frame <$> typing_rows)
    /\ NoDup (TypingRow.seed_frame <$> typing_rows)
    /\ forall f, f ∈ TypingRow.seed_frame <$> typing_rows
         <-> exists r, r ∈ records df_map
               /\ (MapRow.source_frame r = Some f \/ MapRow.target_frame r = Some f).
Proof.
  apply (typing_table_seeds (H := demo_platform) ["urn:m1"; "urn:none"]
           (world0 (P := demo_platform) tt)).
  vm_compute; reflexivity.
Defined.




Section NoFrames.
Context `{Platform}.

Lemma mapping_stage_columns selected w df w' :
  selected <> [] ->
  mapping_stage selected w = (Ok df, w') ->
  columns df = keys (R := MapRow.t).
Proof.
  intros Hne (rows & w1 & Hfetch & -> & _)%mapping_stage_world.
  destruct selected as [|m ms]; [congruence|].
  pose proof (fetch_mappings_nonempty _ _ _ _ _ Hfetch) as Hrows.
  cbn. now destruct rows.
Qed.

Lemma getitem_frames df :
  columns df = keys (R := MapRow.t) ->
  getitem df "source_frame" = Ok (MapRow.source_frame <$> records df)
  /\ getitem df "target_frame" = Ok (MapRow.target_frame <$> records df)
  /\ dropna_pairs df = Ok (omap frame_pair (records df)).
Proof.
  destruct df as [cols rows]. cbn [columns records]. intros ->.
  repeat split.
Qed.

Lemma bind_lift_Ok {A B} (a : A) (k : A -> M B) w :
  bind (lift (Ok a)) k w = k a w.
Proof. reflexivity. Qed.

Lemma dropna_all_null {A} (field : A -> option string) (l : list A) :
  (forall r, r ∈ l -> field r = None) -> dropna (field <$> l) = [].
Proof.
  induction l as [|x l IH]; intros Hall; [reflexivity|].
  unfold dropna in *. csimpl. rewrite (Hall x) by now left.
  csimpl. apply IH. intros r Hr. apply Hall. now right.
Qed.

Lemma frame_pairs_all_null (l : list MapRow.t) :
  (forall r, r ∈ l -> MapRow.source_frame r = None) -> omap frame_pair l = [].
Proof.
  induction l as [|x l IH]; intros Hall; [reflexivity|].
  csimpl. unfold frame_pair at 1. rewrite (Hall x) by now left.
  csimpl. apply IH. intros r Hr. apply Hall. now right.
Qed.

End NoFrames.

(** X21.  When the mapping table of a run with at least one metaphor has
    no frame at all (only placeholders, say), [main] completes without any
    further request, and the typing and overlap files it writes have no
    line and no header. *)
Theorem main_without_frames `{Platform} (selected : list string)
    (w w1 : World) (df : DataFrame MapRow.t) :
  selected <> [] ->
  mapping_stage selected w = (Ok df, w1) ->
  (forall r, r ∈ records df ->
     MapRow.source_frame r = None /\ MapRow.target_frame r = None) ->
  main selected w
  = (Ok tt,
     mkWorld (net w1) (slept w1)
       (<["similarity_overlap.csv" := mkCsv [] []]>
          (<["frame_typing_expanded.csv" := mkCsv [] []]> (files w1)))).
Proof.
  intros Hne Hmap Hnull.
  pose proof (mapping_stage_columns _ _ _ _ Hne Hmap) as Hcols.
  destruct (getitem_frames df Hcols) as (Hsrc & Htgt & Hpairs).
  unfold main. rewrite (bind_run _ _ _ _ _ Hmap).
  rewrite Hsrc, Htgt, Hpairs.
  rewrite !bind_lift_Ok. cbv beta.
  rewrite (dropna_all_null MapRow.source_frame)
    by (intros r Hr; now apply Hnull).
  rewrite (dropna_all_null MapRow.target_frame)
    by (intros r Hr; now apply Hnull).
  rewrite frame_pairs_all_null by (intros r Hr; now apply Hnull).
  cbn [app]. rewrite list_to_set_nil, elements_empty.
  reflexivity.
Qed.

Lemma main_without_frames_witness :
  main (H := silent_platform) ["urn:a"; "urn:b"] (world0 (P := silent_platform) tt)
  = (Ok tt,
     mkWorld (H := silent_platform) tt []
       (<["similarity_overlap.csv" := mkCsv [] []]>
          (<["frame_typing_expanded.csv" := mkCsv [] []]>
             {[ "metaphor_mappings_roles_entailments.csv" :=
                  csv_of (mkDataFrame (keys (R := MapRow.t))
                            [placeholder "urn:a"; placeholder "urn:b"]) ]}))).
Proof.
  assert (Hne : ["urn:a"; "urn:b"] <> @nil string) by discriminate.
  assert (Hmap : mapping_stage (H := silent_platform) ["urn:a"; "urn:b"]
                   (world0 (P := silent_platform) tt)
                 = (Ok (mkDataFrame (keys (R := MapRow.t))
                          [placeholder "urn:a"; placeholder "urn:b"]),
                    mkWorld (H := silent_platform) tt []
                      {[ "metaphor_mappings_roles_entailments.csv" :=
                           csv_of (mkDataFrame (keys (R := MapRow.t))
                                     [placeholder "urn:a"; placeholder "urn:b"]) ]}))
    by (vm_compute; reflexivity).
  assert (Hnull : forall r,
            r ∈ records (mkDataFrame (keys (R := MapRow.t))
                           [placeholder "urn:a"; placeholder "urn:b"]) ->
            MapRow.source_frame r = None /\ MapRow.target_frame r = None).
  { intros r Hr. cbn in Hr.
    apply elem_of_cons in Hr as [->|Hr]; [split; reflexivity|].
    apply list_elem_of_singleton in Hr as ->. split; reflexivity. }
  exact (main_without_frames (H := silent_platform) _ _ _ _ Hne Hmap Hnull).
Defined.

(** X22.  A failure while the mappings are fetched stops [main] with that
    error before any file is written. *)
Theorem fetch_failure_writes_nothing `{Platform} (selected : list string)
    (w w' : World) (e : Exn) :
  fetch_mappings selected [] w = (Raise e, w') ->
  main selected w = (Raise e, w') /\ files w' = files w.
Proof.
  intros Hfetch. split.
  - unfold main, mapping_stage, bind. now rewrite Hfetch.
  - pose proof (fetch_mappings_files selected [] w) as Hf.
    now rewrite Hfetch in Hf.
Qed.

Lemma fetch_failure_writes_nothing_witness :
  main (H := replay_platform) ["urn:m1"]
    (world0 (P := replay_platform)
       [inl (EndpointError "first"); inl (EndpointError "second");
        inl (EndpointError "third")])
  = (Raise (EndpointError "third"),
     mkWorld (H := replay_platform) []
       [@dur_scale replay_platform (QArith_base.Qmake 8 10) 1;
        @dur_scale replay_platform (QArith_base.Qmake 8 10) 2] ∅)
  /\ files (mkWorld (H := replay_platform) []
              [@dur_scale replay_platform (QArith_base.Qmake 8 10) 1;
               @dur_scale replay_platform (QArith_base.Qmake 8 10) 2] ∅)
     = files (world0 (P := replay_platform)
                [inl (EndpointError "first"); inl (EndpointError "second");
                 inl (EndpointError "third")]).
Proof.
  apply (fetch_failure_writes_nothing (H := replay_platform)).
  reflexivity.
Defined.

(** X23.  The labels returned for a frame do not depend on the order in
    which the endpoint lists its bindings, nor on repeated bindings: two
    answers with the same bindings up to order and repetition give the same
    two lists. *)
Theorem labels_ignore_binding_order `{Platform} (f1 f2 : string)
    (w1 w1' w2 w2' : World) (bs1 bs2 : list Binding) :
  run_sparql_default (Query.labels f1) w1 = (Ok (Some (Select bs1)), w1') ->
  run_sparql_default (Query.labels f2) w2 = (Ok (Some (Select bs2)), w2') ->
  (forall b, b ∈ bs1 <-> b ∈ bs2) ->
  exists l,
    get_frame_elements_and_synsets f1 w1 = (Ok l, w1')
    /\ get_frame_elements_and_synsets f2 w2 = (Ok l, w2').
Proof.
  intros H1 H2 Hsame.
  assert (Hfe : (collect_labels bs1).1 = (collect_labels bs2).1).
  { apply set_eq. intros x.
    rewrite (proj1 (elem_of_collect_labels bs1 x)),
            (proj1 (elem_of_collect_labels bs2 x)).
    split; intros (b & s & Hb & Hrest); exists b, s;
      (split; [now apply Hsame | exact Hrest]). }
  assert (Hsyn : (collect_labels bs1).2 = (collect_labels bs2).2).
  { apply set_eq. intros x.
    rewrite (proj2 (elem_of_collect_labels bs1 x)),
            (proj2 (elem_of_collect_labels bs2 x)).
    split; intros (b & s & Hb & Hrest); exists b, s;
      (split; [now apply Hsame | exact Hrest]). }
  pose proof (get_labels_returns _ _ _ _ H1) as G1.
  pose proof (get_labels_returns _ _ _ _ H2) as G2.
  rewrite Hfe, Hsyn in G1. eauto.
Qed.

Lemma labels_ignore_binding_order_witness :
  let answer := fun query : string =>
    if decide (query = Query.labels "urn:f")
    then inr (Select [bound "feLabel" "Goal"; bound "feLabel" "Agent"])
    else inr (Select [bound "feLabel" "Agent"; bound "feLabel" "Goal";
                      bound "feLabel" "Agent"]) : Exn + Response in
  exists l,
    get_frame_elements_and_synsets (H := oracle_platform answer) "urn:f"
      (mkWorld (H := oracle_platform answer) tt [] ∅)
    = (Ok l, mkWorld (H := oracle_platform answer) tt [] ∅)
    /\ get_frame_elements_and_synsets (H := oracle_platform answer) "urn:g"
         (mkWorld (H := oracle_platform answer) tt [] ∅)
       = (Ok l, mkWorld (H := oracle_platform answer) tt [] ∅).
Proof.
  intros answer.
  apply (labels_ignore_binding_order (H := oracle_platform answer)
           "urn:f" "urn:g" _ _ _ _
           [bound "feLabel" "Goal"; bound "feLabel" "Agent"]
           [bound "feLabel" "Agent"; bound "feLabel" "Goal";
            bound "feLabel" "Agent"]).
  - vm_compute; reflexivity.
  - vm_compute; reflexivity.
  - intros b. rewrite !elem_of_cons, !elem_of_nil. tauto.
Defined.
